(** * eth2deposit.credentials: a shallow embedding and its verified properties

    The development follows [eth2deposit/credentials.py]: the classes
    [Credential] and [CredentialList].  Everything the module imports from
    elsewhere (BLS, key derivation, SSZ, the keystore codec, the chain
    constants) is gathered in the class [Externals] and every statement is
    proved for an arbitrary instance of it. *)

From Stdlib Require Import ZArith List Lia Ascii String.
From Stdlib Require Strings.Byte.
From stdpp Require Import base numbers option list strings pretty gmap.

Set Default Proof Using "Type".

(** ** Python values *)

Definition bytes := list Byte.byte.

(** Exceptions the module raises itself ([ValidationError], [ValueError]),
    the ones of the Python built-ins it uses, and the ones that travel up
    from a collaborator. *)
Inductive exn : Type :=
  | ValidationError
  | ValueError
  | IndexError
  | OverflowError
  | CollaboratorError (who : string).

Inductive result (A : Type) : Type :=
  | Ok (a : A)
  | Raise (e : exn).
Arguments Ok {A} a.
Arguments Raise {A} e.

Definition is_ok {A} (r : result A) : bool :=
  match r with Ok _ => true | Raise _ => false end.

(** [int.from_bytes(b, 'big')] *)
Definition int_from_bytes_big (b : bytes) : Z :=
  fold_left (fun acc x => (acc * 256 + Z.of_N (Byte.to_N x))%Z) b 0%Z.

Definition byte_of_Z (z : Z) : Byte.byte :=
  match Byte.of_N (Z.to_N (z mod 256)) with
  | Some b => b
  | None => Byte.x00
  end.

Fixpoint big_endian_digits (len : nat) (n : Z) : bytes :=
  match len with
  | O => []
  | S len' => big_endian_digits len' (n / 256) ++ [byte_of_Z n]
  end.

(** [n.to_bytes(len, 'big')]: unsigned, [OverflowError] when [n] is negative
    or does not fit. *)
Definition int_to_bytes_big (len : nat) (n : Z) : result bytes :=
  if (0 <=? n)%Z && (n <? 256 ^ Z.of_nat len)%Z
  then Ok (big_endian_digits len n)
  else Raise OverflowError.

(** [range(a, b)] over Python integers. *)
Definition py_range (a b : Z) : list Z :=
  map (fun k => (a + Z.of_nat k)%Z) (seq 0 (Z.to_nat (b - a))).

(** [l[i]]: a negative index counts from the end, an index out of range
    raises [IndexError]. *)
Definition py_index {A} (l : list A) (i : Z) : result A :=
  let j := if (i <? 0)%Z then (i + Z.of_nat (length l))%Z else i in
  if (j <? 0)%Z then Raise IndexError
  else match l !! Z.to_nat j with
       | Some x => Ok x
       | None => Raise IndexError
       end.

(** [zip(xs, ys)] stops at the shorter argument. *)
Fixpoint py_zip {A B} (xs : list A) (ys : list B) : list (A * B) :=
  match xs, ys with
  | x :: xs', y :: ys' => (x, y) :: py_zip xs' ys'
  | _, _ => []
  end.

(** The values a deposit datum dictionary holds. *)
Inductive pyval : Type :=
  | VBytes (b : bytes)
  | VInt (n : Z)
  | VStr (s : string).

(** ** A state-and-exception monad

    [M S A] is a computation over a mutable store [S] that returns an [A] or
    raises.  A method of an object is a computation over that object; a
    constructor is a computation over the trace of collaborator calls. *)

Definition M (S A : Type) : Type := S -> result A * S.

Definition ret {S A} (a : A) : M S A := fun s => (Ok a, s).

Definition bind {S A B} (m : M S A) (k : A -> M S B) : M S B :=
  fun s => match m s with
           | (Ok a, s') => k a s'
           | (Raise e, s') => (Raise e, s')
           end.

Definition raise {S A} (e : exn) : M S A := fun s => (Raise e, s).

(** Read an attribute of the store. *)
Definition attr {S A} (f : S -> A) : M S A := fun s => (Ok (f s), s).

(** Call a collaborator that may raise but touches no store. *)
Definition call {S A} (r : result A) : M S A := fun s => (r, s).

(** Append to the store, when the store is a log. *)
Definition emit {Ev} (e : Ev) : M (list Ev) unit := fun s => (Ok tt, s ++ [e]).

Definition value {S A} (m : M S A) (s : S) : result A := fst (m s).
Definition state_after {S A} (m : M S A) (s : S) : S := snd (m s).

Declare Scope py_scope.
Delimit Scope py_scope with py.
Notation "x <- m ;; k" := (bind m (fun x => k))
  (at level 100, m at next level, right associativity) : py_scope.
Notation "m ;;; k" := (bind m (fun _ => k))
  (at level 100, right associativity) : py_scope.

(** ** SSZ containers (fields as [credentials.py] passes them) *)

Module DepositMessage.
Record t : Type := mk {
  pubkey : bytes;
  withdrawal_credentials : bytes;
  amount : Z
}.

(** [msg.copy(withdrawal_credentials=w)] *)
Definition copy_withdrawal_credentials (m : t) (w : bytes) : t :=
  {| pubkey := pubkey m; withdrawal_credentials := w; amount := amount m |}.

Definition as_dict (m : t) : gmap string pyval :=
  <["amount" := VInt (amount m)]>
    (<["withdrawal_credentials" := VBytes (withdrawal_credentials m)]>
      (<["pubkey" := VBytes (pubkey m)]> ∅)).
End DepositMessage.

Module DepositData.
Record t : Type := mk {
  pubkey : bytes;
  withdrawal_credentials : bytes;
  amount : Z;
  signature : bytes
}.

(** The container built from the unpacked [msg.as_dict ()] and the
    keyword [signature]. *)
Definition of_message (m : DepositMessage.t) (sig : bytes) : t :=
  {| pubkey := DepositMessage.pubkey m;
     withdrawal_credentials := DepositMessage.withdrawal_credentials m;
     amount := DepositMessage.amount m;
     signature := sig |}.

Definition as_dict (d : t) : gmap string pyval :=
  <["signature" := VBytes (signature d)]>
    (<["amount" := VInt (amount d)]>
      (<["withdrawal_credentials" := VBytes (withdrawal_credentials d)]>
        (<["pubkey" := VBytes (pubkey d)]> ∅))).
End DepositData.

(** ** Collaborators

    What [credentials.py] imports and this development does not look into.
    [mnemonic_and_path_to_key] takes its arguments in the order
    mnemonic, path, password.  [hash_tree_root_message] and
    [hash_tree_root_data] are the [hash_tree_root] property of the two
    containers.  The serializer, the key derivation and the keystore codec
    may raise; [SkToPk], [Sign] and [SHA256] return bytes.  The keystore
    codec draws a fresh salt, IV and identifier on every encryption: they
    are the explicit last argument of [ScryptKeystore_encrypt]. *)
Class Externals : Type := {
  Keystore : Type;
  mnemonic_and_path_to_key : string -> string -> string -> result Z;
  SkToPk : Z -> bytes;
  Sign : Z -> bytes -> bytes;
  SHA256 : bytes -> bytes;
  compute_deposit_domain : bytes -> result bytes;
  compute_signing_root : DepositMessage.t -> bytes -> result bytes;
  hash_tree_root_message : DepositMessage.t -> result bytes;
  hash_tree_root_data : DepositData.t -> result bytes;
  Keystore_from_file : string -> result Keystore;
  Keystore_decrypt : Keystore -> string -> result bytes;
  ScryptKeystore_encrypt : bytes -> string -> string -> bytes -> Keystore;
  MIN_DEPOSIT_AMOUNT : Z;
  MAX_DEPOSIT_AMOUNT : Z;
  DEPOSIT_CLI_VERSION : string
}.

(** Modelled from the spec: the constant [BLS_WITHDRAWAL_PREFIX] of
    [eth2deposit/utils/constants.py], the single byte 0x00 (the test
    [test_new_mnemonic] spells it the same way). *)
Definition BLS_WITHDRAWAL_PREFIX : bytes := [Byte.x00].

(** Modelled from the spec: the constant [ETH2GWEI] of
    [eth2deposit/utils/constants.py], the number of Gwei in one ETH, 10**9
    (the glossary: a Gwei is 10^-9 of the chain's native unit). *)
Definition ETH2GWEI : Z := 10 ^ 9.

(** [a / b] on two integers, [b] not zero, as far as raising goes.  The
    quotient is rounded to the nearest double, ties to even, and
    [OverflowError] is raised when the rounded value is not finite: that is
    when |a / b| >= 2^1024 - 2^970, halfway between the largest double and
    2^1024. *)
Definition true_division_overflows (a b : Z) : bool :=
  ((2 ^ 1024 - 2 ^ 970) * Z.abs b <=? Z.abs a)%Z.

(** The trace of key derivations requested from the collaborator. *)
Inductive Event : Type :=
  | KeyDerivationCall (mnemonic path password : string).

Definition Trace := list Event.

(** ** class Credential *)

Module Credential.
Record t : Type := mk {
  withdrawal_sk : Z;
  signing_sk : Z;
  signing_key_path : string;
  amount : Z;
  fork_version : bytes
}.

(** The two path strings [__init__] formats. *)
Definition withdrawal_key_path_of (index : Z) : string :=
  let purpose := "12381" in
  let coin_type := "3600" in
  let account := pretty index in
  "m/" +:+ purpose +:+ "/" +:+ coin_type +:+ "/" +:+ account +:+ "/0".

Definition signing_key_path_of (index : Z) : string :=
  withdrawal_key_path_of index +:+ "/0".

Section Methods.
Context `{E : Externals}.
Local Open Scope py_scope.

Definition derive_key (mnemonic path password : string) : M Trace Z :=
  emit (KeyDerivationCall mnemonic path password) ;;;
  call (mnemonic_and_path_to_key mnemonic path password).

Definition init (mnemonic mnemonic_password : string) (index amount : Z)
    (fork_version : bytes) : M Trace t :=
  let withdrawal_key_path := withdrawal_key_path_of index in
  let signing_key_path := signing_key_path_of index in
  withdrawal_sk <- derive_key mnemonic withdrawal_key_path mnemonic_password ;;
  signing_sk <- derive_key mnemonic signing_key_path mnemonic_password ;;
  ret {| withdrawal_sk := withdrawal_sk;
         signing_sk := signing_sk;
         signing_key_path := signing_key_path;
         amount := amount;
         fork_version := fork_version |}.

Definition signing_pk : M t bytes :=
  sk <- attr signing_sk ;;
  ret (SkToPk sk).

Definition withdrawal_pk : M t bytes :=
  sk <- attr withdrawal_sk ;;
  ret (SkToPk sk).

Definition withdrawal_credentials : M t bytes :=
  let withdrawal_credentials := BLS_WITHDRAWAL_PREFIX in
  pk <- withdrawal_pk ;;
  let withdrawal_credentials := withdrawal_credentials ++ drop 1 (SHA256 pk) in
  ret withdrawal_credentials.

(** The text of the [ValidationError] is not modelled; the division
    [self.amount / ETH2GWEI] that computes it is, for the [OverflowError] it
    raises when the quotient is too large for a float. *)
Definition deposit_message : M t DepositMessage.t :=
  a <- attr amount ;;
  if negb ((MIN_DEPOSIT_AMOUNT <=? a)%Z && (a <=? MAX_DEPOSIT_AMOUNT)%Z)
  then
    a <- attr amount ;;
    if true_division_overflows a ETH2GWEI
    then raise OverflowError
    else raise ValidationError
  else
    pk <- signing_pk ;;
    wc <- withdrawal_credentials ;;
    a <- attr amount ;;
    ret {| DepositMessage.pubkey := pk;
           DepositMessage.withdrawal_credentials := wc;
           DepositMessage.amount := a |}.

Definition generate_signed_deposit
    (assigned_withdrawal_credentials : option bytes) : M t DepositData.t :=
  fv <- attr fork_version ;;
  domain <- call (compute_deposit_domain fv) ;;
  deposit_message <- deposit_message ;;
  let deposit_message :=
    match assigned_withdrawal_credentials with
    | Some w => DepositMessage.copy_withdrawal_credentials deposit_message w
    | None => deposit_message
    end in
  signing_root <- call (compute_signing_root deposit_message domain) ;;
  sk <- attr signing_sk ;;
  let signed_deposit :=
    DepositData.of_message deposit_message (Sign sk signing_root) in
  ret signed_deposit.

Definition generate_deposit_datum_dict
    (assigned_withdrawal_credentials : option bytes)
    : M t (gmap string pyval) :=
  signed_deposit_datum <- generate_signed_deposit assigned_withdrawal_credentials ;;
  let datum_dict := DepositData.as_dict signed_deposit_datum in
  dm <- deposit_message ;;
  dm_root <- call (hash_tree_root_message dm) ;;
  let datum_dict := <["deposit_message_root" := VBytes dm_root]> datum_dict in
  dd_root <- call (hash_tree_root_data signed_deposit_datum) ;;
  let datum_dict := <["deposit_data_root" := VBytes dd_root]> datum_dict in
  fv <- attr fork_version ;;
  let datum_dict := <["fork_version" := VBytes fv]> datum_dict in
  let datum_dict :=
    <["deposit_cli_version" := VStr DEPOSIT_CLI_VERSION]> datum_dict in
  ret datum_dict.

Definition signing_keystore (password : string) (fresh : bytes)
    : M t Keystore :=
  sk <- attr signing_sk ;;
  secret <- call (int_to_bytes_big 32 sk) ;;
  path <- attr signing_key_path ;;
  ret (ScryptKeystore_encrypt secret password path fresh).

Definition verify_keystore (keystore_filefolder password : string)
    : M t bool :=
  saved_keystore <- call (Keystore_from_file keystore_filefolder) ;;
  secret_bytes <- call (Keystore_decrypt saved_keystore password) ;;
  sk <- attr signing_sk ;;
  ret (sk =? int_from_bytes_big secret_bytes)%Z.
End Methods.
End Credential.

(** ** class CredentialList *)

(** A list comprehension whose body may raise: elements are built left to
    right and the first exception ends the comprehension. *)
Fixpoint comprehension {S A B} (f : A -> M S B) (l : list A) : M S (list B) :=
  match l with
  | [] => ret []
  | x :: l' => bind (f x) (fun y => bind (comprehension f l') (fun ys => ret (y :: ys)))
  end.

(** [all(...)] over results already known: it stops at the first [False]
    and an exception met before that escapes. *)
Fixpoint py_all (xs : list (result bool)) : result bool :=
  match xs with
  | [] => Ok true
  | Ok true :: xs' => py_all xs'
  | Ok false :: _ => Ok false
  | Raise e :: _ => Raise e
  end.

Module CredentialList.
Record t : Type := mk { credentials : list Credential.t }.

Section Methods.
Context `{E : Externals}.
Local Open Scope py_scope.

(** The progress bar only displays; it hands out [key_indices] in order. *)
Definition from_mnemonic (mnemonic mnemonic_password : string)
    (num_keys : Z) (amounts : list Z) (fork_version : bytes)
    (start_index : Z) : M Trace t :=
  if negb (Z.of_nat (length amounts) =? num_keys)%Z
  then raise ValueError
  else
    let key_indices := py_range start_index (start_index + num_keys) in
    creds <- comprehension
               (fun index =>
                  amount <- call (py_index amounts (index - start_index)) ;;
                  Credential.init mnemonic mnemonic_password index amount
                                  fork_version)
               key_indices ;;
    ret {| credentials := creds |}.

(** One positional pair of [verify_keystores].  Only the answer of
    [verify_keystore] is kept: the method reads the credential and
    assigns nothing (lemma [verify_keystore_read_only]). *)
Definition verify_pair (password : string)
    (item : Credential.t * string) : result bool :=
  value (Credential.verify_keystore (snd item) password) (fst item).

Definition verify_keystores (keystore_filefolders : list string)
    (password : string) : M t bool :=
  creds <- attr credentials ;;
  let items := py_zip creds keystore_filefolders in
  call (py_all (map (verify_pair password) items)).
End Methods.
End CredentialList.

(** ** A small instance of the collaborators

    Cheap stand-ins with the right shapes (48-byte keys, 32-byte digests,
    96-byte signatures, a domain that insists on a 4-byte fork version, a
    keystore that opens under its own password only).  They serve to run the
    definitions above on concrete inputs. *)

Module Sample.
Definition digest (len : nat) (z : Z) : bytes := big_endian_digits len z.

Definition key_of (mnemonic path password : string) : result Z :=
  if String.eqb mnemonic ""
  then Raise (CollaboratorError "mnemonic")
  else Ok (Z.of_nat (String.length mnemonic + 7 * String.length path
                     + 11 * String.length password)).

Definition message_number (m : DepositMessage.t) : Z :=
  (int_from_bytes_big (DepositMessage.pubkey m)
   + 3 * int_from_bytes_big (DepositMessage.withdrawal_credentials m)
   + 5 * DepositMessage.amount m)%Z.

Definition domain_of (fork_version : bytes) : result bytes :=
  if (length fork_version =? 4)%nat
  then Ok ([Byte.x03; Byte.x00; Byte.x00; Byte.x00]
           ++ digest 28 (int_from_bytes_big fork_version))
  else Raise ValueError.

Definition open_file (path : string) : result (bytes * string) :=
  if String.eqb path "keystore-m_12381_3600_0_0_0-1.json"
  then Ok (digest 32 129, "MyPassword")
  else if String.eqb path "keystore-m_12381_3600_1_0_0-1.json"
  then Ok (digest 32 129, "OtherPassword")
  else Raise (CollaboratorError "open").

Definition decrypt (k : bytes * string) (password : string) : result bytes :=
  if String.eqb (snd k) password
  then Ok (fst k)
  else Raise (CollaboratorError "decrypt").

Definition externals : Externals := {|
  Keystore := bytes * string;
  mnemonic_and_path_to_key := key_of;
  SkToPk := fun sk => digest 48 (sk * 65537 + 1);
  Sign := fun sk msg => digest 96 (sk * int_from_bytes_big msg + 1);
  SHA256 := fun b => digest 32 (int_from_bytes_big b * 31 + 17);
  compute_deposit_domain := domain_of;
  compute_signing_root := fun m d =>
    Ok (digest 32 (message_number m + 7 * int_from_bytes_big d));
  hash_tree_root_message := fun m => Ok (digest 32 (message_number m));
  hash_tree_root_data := fun d =>
    Ok (digest 32 (int_from_bytes_big (DepositData.pubkey d)
                   + 3 * int_from_bytes_big (DepositData.withdrawal_credentials d)
                   + 5 * DepositData.amount d
                   + 7 * int_from_bytes_big (DepositData.signature d)));
  Keystore_from_file := open_file;
  Keystore_decrypt := decrypt;
  ScryptKeystore_encrypt := fun secret password _ _ => (secret, password);
  MIN_DEPOSIT_AMOUNT := 1000000000;
  MAX_DEPOSIT_AMOUNT := 32000000000;
  DEPOSIT_CLI_VERSION := "1.0.0"
|}.

Definition mainnet_fork_version : bytes :=
  [Byte.x00; Byte.x00; Byte.x00; Byte.x00].

(** The credential of index 0 for the mnemonic "abc" and an empty
    password, depositing 32 ETH. *)
Definition credential0 : Credential.t :=
  {| Credential.withdrawal_sk := 115;
     Credential.signing_sk := 129;
     Credential.signing_key_path := "m/12381/3600/0/0/0";
     Credential.amount := 32000000000;
     Credential.fork_version := mainnet_fork_version |}.

Definition other_credentials : bytes := digest 32 1.

(** A second credential (index 1 of the same mnemonic), depositing 1 ETH,
    the lower bound. *)
Definition credential1 : Credential.t :=
  {| Credential.withdrawal_sk := 115;
     Credential.signing_sk := 129;
     Credential.signing_key_path := "m/12381/3600/1/0/0";
     Credential.amount := 1000000000;
     Credential.fork_version := mainnet_fork_version |}.

Definition keystore_file0 : string := "keystore-m_12381_3600_0_0_0-1.json".

(** The datum dictionary of [credential0] under the override
    [other_credentials] (empty should the call raise). *)
Definition datum_with_override : gmap string pyval :=
  match value (@Credential.generate_deposit_datum_dict externals
                 (Some other_credentials)) credential0 with
  | Ok d => d
  | Raise _ => ∅
  end.
End Sample.

(** ** Vocabulary of the statements *)

(** A computation is read-only when it hands its store back as it got it. *)
Definition read_only {S A} (m : M S A) : Prop := forall s, state_after m s = s.

(** Assignments [cred.amount = a] and [cred.fork_version = fv] from outside. *)
Definition with_amount (c : Credential.t) (a : Z) : Credential.t :=
  {| Credential.withdrawal_sk := Credential.withdrawal_sk c;
     Credential.signing_sk := Credential.signing_sk c;
     Credential.signing_key_path := Credential.signing_key_path c;
     Credential.amount := a;
     Credential.fork_version := Credential.fork_version c |}.

Definition with_fork_version (c : Credential.t) (fv : bytes) : Credential.t :=
  {| Credential.withdrawal_sk := Credential.withdrawal_sk c;
     Credential.signing_sk := Credential.signing_sk c;
     Credential.signing_key_path := Credential.signing_key_path c;
     Credential.amount := Credential.amount c;
     Credential.fork_version := fv |}.

(** The key material of a batch: the two secret keys and the signing path
    of every credential, in list order. *)
Definition key_material (r : result CredentialList.t)
    : option (list (Z * Z * string)) :=
  match r with
  | Ok cl =>
      Some (map (fun c => (Credential.withdrawal_sk c, Credential.signing_sk c,
                           Credential.signing_key_path c))
                (CredentialList.credentials cl))
  | Raise _ => None
  end.

(** The segments of a path, as [path.split('/')] gives them. *)
Fixpoint split_slash (s : string) : list string :=
  match s with
  | EmptyString => [EmptyString]
  | String ch s' =>
      if Ascii.eqb ch "/"%char then EmptyString :: split_slash s'
      else match split_slash s' with
           | seg :: rest => String ch seg :: rest
           | [] => [String ch EmptyString]
           end
  end.

(** A string without the path separator. *)
Definition no_slash (s : string) : Prop :=
  Forall (fun ch => ch <> "/"%char) (list_ascii_of_string s).

Section Vocabulary.
Context `{E : Externals}.

Definition in_bounds (a : Z) : bool :=
  (MIN_DEPOSIT_AMOUNT <=? a)%Z && (a <=? MAX_DEPOSIT_AMOUNT)%Z.

(** What [deposit_message] raises for an amount out of bounds. *)
Definition out_of_bounds_error (a : Z) : exn :=
  if true_division_overflows a ETH2GWEI then OverflowError
  else ValidationError.

(** The withdrawal credentials derived from the withdrawal key. *)
Definition derived_withdrawal_credentials (c : Credential.t) : bytes :=
  BLS_WITHDRAWAL_PREFIX
    ++ drop 1 (SHA256 (SkToPk (Credential.withdrawal_sk c))).

(** The deposit message of a credential, with the override when given. *)
Definition message_of (c : Credential.t) (override : option bytes)
    : DepositMessage.t :=
  {| DepositMessage.pubkey := SkToPk (Credential.signing_sk c);
     DepositMessage.withdrawal_credentials :=
       match override with
       | Some w => w
       | None => derived_withdrawal_credentials c
       end;
     DepositMessage.amount := Credential.amount c |}.

(** The two derivations [Credential.__init__] asks for, in order. *)
Definition derivations_of (mnemonic password : string) (index : Z) : Trace :=
  [KeyDerivationCall mnemonic (Credential.withdrawal_key_path_of index) password;
   KeyDerivationCall mnemonic (Credential.signing_key_path_of index) password].

(** The credential [from_mnemonic] builds at position [k]. *)
Definition built_at (mnemonic password : string) (start_index : Z)
    (fv : bytes) (k : nat) (a : Z) (c : Credential.t) : Prop :=
  let index := (start_index + Z.of_nat k)%Z in
  mnemonic_and_path_to_key mnemonic
    (Credential.withdrawal_key_path_of index) password
    = Ok (Credential.withdrawal_sk c)
  /\ mnemonic_and_path_to_key mnemonic
       (Credential.signing_key_path_of index) password
     = Ok (Credential.signing_sk c)
  /\ Credential.signing_key_path c = Credential.signing_key_path_of index
  /\ Credential.amount c = a
  /\ Credential.fork_version c = fv.
End Vocabulary.

(** ** Writing keystores and deposit data to files

    [save_signing_keystore], [export_keystores] and
    [export_deposit_data_json] read the wall clock and write files.  The
    world they act on holds the files by path (a path names a file as the
    string it is), the number of clock readings taken and the number of
    encryptions performed so far. *)

(** [s.replace('/', '_')] *)
Fixpoint replace_slash (s : string) : string :=
  match s with
  | EmptyString => EmptyString
  | String ch s' =>
      String (if Ascii.eqb ch "/"%char then "_"%char else ch) (replace_slash s')
  end.

Definition starts_with_slash (s : string) : bool :=
  match s with
  | String ch _ => Ascii.eqb ch "/"%char
  | EmptyString => false
  end.

Fixpoint ends_with_slash (s : string) : bool :=
  match s with
  | EmptyString => false
  | String ch s' =>
      match s' with
      | EmptyString => Ascii.eqb ch "/"%char
      | String _ _ => ends_with_slash s'
      end
  end.

(** [os.path.join(a, b)] as [posixpath] defines it: an absolute [b]
    replaces [a], otherwise [b] follows [a] and one separator unless [a] is
    empty or already ends with one. *)
Definition path_join (a b : string) : string :=
  if starts_with_slash b then b
  else if String.eqb a "" || ends_with_slash a then a +:+ b
  else a +:+ "/" +:+ b.

(** [b.hex()]: two lowercase hexadecimal digits per byte. *)
Definition hex_digit (n : N) : ascii :=
  match n with
  | 0 => "0" | 1 => "1" | 2 => "2" | 3 => "3" | 4 => "4" | 5 => "5"
  | 6 => "6" | 7 => "7" | 8 => "8" | 9 => "9" | 10 => "a" | 11 => "b"
  | 12 => "c" | 13 => "d" | 14 => "e" | _ => "f"
  end%char%N.

Definition byte_hex (b : Byte.byte) : string :=
  let n := Byte.to_N b in
  String (hex_digit (n / 16)) (String (hex_digit (n mod 16)) EmptyString).

Fixpoint bytes_hex (b : bytes) : string :=
  match b with
  | [] => EmptyString
  | x :: b' => byte_hex x +:+ bytes_hex b'
  end.

(** The JSON values [json.dump] writes for the entries of a datum
    dictionary: strings and integers as they are, bytes through
    [default=lambda x: x.hex()].  The document is kept as a tree; the order
    of the keys in the text is not modelled. *)
Inductive json : Type :=
  | JString (s : string)
  | JNumber (n : Z).

Definition json_default (v : pyval) : json :=
  match v with
  | VBytes b => JString (bytes_hex b)
  | VInt n => JNumber n
  | VStr s => JString s
  end.

(** The name [save_signing_keystore] formats from the keystore's path and
    the clock, and the one [export_deposit_data_json] formats. *)
Definition keystore_file_name (path : string) (now : Z) : string :=
  "keystore-" +:+ replace_slash path +:+ "-" +:+ pretty now +:+ ".json".

Definition deposit_data_file_name (now : Z) : string :=
  "deposit_data-" +:+ pretty now +:+ ".json".

Section Files.
Context `{E : Externals}.

Inductive FileContent : Type :=
  | KeystoreFile (k : Keystore)
  | DepositDataFile (entries : list (gmap string json)).

Record World : Type := mkWorld {
  clock_reads : nat;
  encryptions : nat;
  files : gmap string FileContent
}.

(** What the file operations need beyond [Externals]: the attribute
    [keystore.path]; the integer part of the n-th reading of [time.time()]
    (what the format ['%i'] prints of it); the random bytes the codec draws
    for its n-th encryption; and whether a path can be opened for
    writing. *)
Class Environment : Type := {
  Keystore_path : Keystore -> string;
  time_time : nat -> Z;
  fresh_bytes : nat -> bytes;
  can_open_for_writing : string -> bool
}.

Context `{Env : Environment}.
Local Open Scope py_scope.

Definition time_now : M World Z :=
  fun w => (Ok (time_time (clock_reads w)),
            mkWorld (S (clock_reads w)) (encryptions w) (files w)).

(** Run a step that encrypts.  The codec draws its random bytes inside
    [encrypt]; when the step raises before reaching it nothing is drawn. *)
Definition encrypting {A} (step : bytes -> result A) : M World A :=
  fun w => match step (fresh_bytes (encryptions w)) with
           | Ok a => (Ok a, mkWorld (clock_reads w) (S (encryptions w))
                              (files w))
           | Raise e => (Raise e, w)
           end.

(** [open(path, 'w')] followed by the write: the file is created or
    replaced, or the open fails and nothing is written. *)
Definition write_file (path : string) (content : FileContent) : M World unit :=
  fun w => if can_open_for_writing path
           then (Ok tt, mkWorld (clock_reads w) (encryptions w)
                          (<[path := content]> (files w)))
           else (Raise (CollaboratorError "open"), w).

(** [Credential.save_signing_keystore]; the credential is only read. *)
Definition save_signing_keystore (self : Credential.t)
    (password folder : string) : M World string :=
  keystore <- encrypting (fun fresh =>
                value (Credential.signing_keystore password fresh) self) ;;
  now <- time_now ;;
  let filefolder :=
    path_join folder (keystore_file_name (Keystore_path keystore) now) in
  write_file filefolder (KeystoreFile keystore) ;;;
  ret filefolder.

(** [CredentialList.export_keystores] *)
Definition export_keystores (self : CredentialList.t)
    (password folder : string) : M World (list string) :=
  comprehension
    (fun credential => save_signing_keystore credential password folder)
    (CredentialList.credentials self).

(** [CredentialList.export_deposit_data_json] *)
Definition export_deposit_data_json (self : CredentialList.t)
    (folder : string) (assigned_withdrawal_credentials : option bytes)
    : M World string :=
  deposit_data <- comprehension
                    (fun cred =>
                       call (value (Credential.generate_deposit_datum_dict
                                      assigned_withdrawal_credentials) cred))
                    (CredentialList.credentials self) ;;
  now <- time_now ;;
  let filefolder := path_join folder (deposit_data_file_name now) in
  write_file filefolder
    (DepositDataFile (map (fmap json_default) deposit_data)) ;;;
  ret filefolder.
End Files.

Section FilesVocabulary.
Context `{E : Externals} {Env : @Environment E}.

(** The keystore [save_signing_keystore] makes for a credential at the
    codec's n-th encryption, and the path it saves it to when that
    encryption is the n-th and the clock reading the m-th. *)
Definition keystore_at (c : Credential.t) (password : string) (n : nat)
    : Keystore :=
  ScryptKeystore_encrypt (big_endian_digits 32 (Credential.signing_sk c))
    password (Credential.signing_key_path c) (fresh_bytes n).

Definition keystore_path_at (c : Credential.t) (password folder : string)
    (n m : nat) : string :=
  path_join folder
    (keystore_file_name (Keystore_path (keystore_at c password n))
       (time_time m)).

(** The paths of a whole export that starts at encryption [n] and clock
    reading [m]. *)
Fixpoint export_paths (creds : list Credential.t) (password folder : string)
    (n m : nat) : list string :=
  match creds with
  | [] => []
  | c :: creds' =>
      keystore_path_at c password folder n m
        :: export_paths creds' password folder (S n) (S m)
  end.
End FilesVocabulary.

(** A signing key that fits 32 unsigned bytes. *)
Definition fits_32_bytes (c : Credential.t) : Prop :=
  (0 <= Credential.signing_sk c < 2 ^ 256)%Z.

(** A string in which the character [x] does not occur. *)
Definition lacks (x : ascii) (s : string) : Prop :=
  Forall (fun ch => ch <> x) (list_ascii_of_string s).

(** What [path_join] puts before a relative name. *)
Definition folder_prefix (folder : string) : string :=
  if String.eqb folder "" || ends_with_slash folder then folder
  else folder +:+ "/".

(** ** A second instance of the collaborators, with files

    As [Sample], with a key derivation that tells paths apart and rejects
    the ones longer than 18 characters, keystores that remember their path,
    a clock that advances by one second per reading, and a folder
    [readonly] in which no file can be opened for writing. *)

Module Disk.
Definition key_of (mnemonic path password : string) : result Z :=
  if String.eqb mnemonic ""
  then Raise (CollaboratorError "mnemonic")
  else if (18 <? String.length path)%nat
  then Raise (CollaboratorError "path")
  else Ok (Z.of_nat (fold_right (fun ch n => nat_of_ascii ch + n)
                       (String.length mnemonic)
                       (list_ascii_of_string path))).

Definition decrypt (k : bytes * string * string) (password : string)
    : result bytes :=
  if String.eqb (snd (fst k)) password
  then Ok (fst (fst k))
  else Raise (CollaboratorError "decrypt").

(** The keystore files present when keystores are verified. *)
Definition stored : list (string * (bytes * string * string)) :=
  [("validator_keys/keystore-m_12381_3600_8_0_0-1600000000.json",
    (Sample.digest 32 955, "MyPassword", "m/12381/3600/8/0/0"));
   ("validator_keys/keystore-m_12381_3600_9_0_0-1600000001.json",
    (Sample.digest 32 956, "MyPassword", "m/12381/3600/9/0/0"))].

Fixpoint find_file (l : list (string * (bytes * string * string)))
    (path : string) : result (bytes * string * string) :=
  match l with
  | [] => Raise (CollaboratorError "open")
  | (p, k) :: l' => if String.eqb p path then Ok k else find_file l' path
  end.

Definition externals : Externals := {|
  Keystore := bytes * string * string;
  mnemonic_and_path_to_key := key_of;
  SkToPk := @SkToPk Sample.externals;
  Sign := @Sign Sample.externals;
  SHA256 := @SHA256 Sample.externals;
  compute_deposit_domain := Sample.domain_of;
  compute_signing_root := @compute_signing_root Sample.externals;
  hash_tree_root_message := @hash_tree_root_message Sample.externals;
  hash_tree_root_data := @hash_tree_root_data Sample.externals;
  Keystore_from_file := find_file stored;
  Keystore_decrypt := decrypt;
  ScryptKeystore_encrypt := fun secret password path _ =>
                              (secret, password, path);
  MIN_DEPOSIT_AMOUNT := 1000000000;
  MAX_DEPOSIT_AMOUNT := 32000000000;
  DEPOSIT_CLI_VERSION := "1.0.0"
|}.

Definition path_of (k : bytes * string * string) : string := snd k.

Definition environment : @Environment externals :=
  @Build_Environment externals
    path_of
    (fun n => (1600000000 + Z.of_nat n)%Z)
    (fun n => Sample.digest 16 (Z.of_nat n))
    (fun path => negb (String.prefix "readonly/" path)).

Definition empty_world : @World externals := mkWorld 0 0 ∅.

(** The credentials of indices 8 and 9 for the mnemonic "abc". *)
Definition credential8 : Credential.t :=
  {| Credential.withdrawal_sk := 860;
     Credential.signing_sk := 955;
     Credential.signing_key_path := "m/12381/3600/8/0/0";
     Credential.amount := 1000000000;
     Credential.fork_version := Sample.mainnet_fork_version |}.

Definition credential9 : Credential.t :=
  {| Credential.withdrawal_sk := 861;
     Credential.signing_sk := 956;
     Credential.signing_key_path := "m/12381/3600/9/0/0";
     Credential.amount := 32000000000;
     Credential.fork_version := Sample.mainnet_fork_version |}.

Definition batch : CredentialList.t :=
  {| CredentialList.credentials := [credential8; credential9] |}.

(** A credential whose signing key is one too large for 32 bytes, and one
    whose amount is one Gwei below the minimum. *)
Definition oversized_credential : Credential.t :=
  {| Credential.withdrawal_sk := 861;
     Credential.signing_sk := 2 ^ 256;
     Credential.signing_key_path := "m/12381/3600/9/0/0";
     Credential.amount := 32000000000;
     Credential.fork_version := Sample.mainnet_fork_version |}.

Definition underfunded_credential : Credential.t :=
  {| Credential.withdrawal_sk := 861;
     Credential.signing_sk := 956;
     Credential.signing_key_path := "m/12381/3600/9/0/0";
     Credential.amount := 999999999;
     Credential.fork_version := Sample.mainnet_fork_version |}.

Definition keystore8 : bytes * string * string :=
  (Sample.digest 32 955, "MyPassword", "m/12381/3600/8/0/0").

Definition keystore9 : bytes * string * string :=
  (Sample.digest 32 956, "MyPassword", "m/12381/3600/9/0/0").

Definition file8 : string :=
  "validator_keys/keystore-m_12381_3600_8_0_0-1600000000.json".

Definition file9 : string :=
  "validator_keys/keystore-m_12381_3600_9_0_0-1600000001.json".

(** The world after [batch] was exported to [validator_keys] from the empty
    world. *)
Definition world_after_export : @World externals :=
  mkWorld 2 2
    (<[file9 := @KeystoreFile externals keystore9]>
       (<[file8 := @KeystoreFile externals keystore8]> ∅)).

(** The datum dictionaries of the two credentials without override (empty
    should the call raise). *)
Definition datum_of (c : Credential.t) : gmap string pyval :=
  match value (@Credential.generate_deposit_datum_dict externals None) c with
  | Ok d => d
  | Raise _ => ∅
  end.
End Disk.

(** * Properties *)

(** ** Computations that only read their store *)

Lemma read_only_ret {S A} (a : A) : read_only (@ret S A a).
Proof. intros s; reflexivity. Qed.

Lemma read_only_raise {S A} (e : exn) : read_only (@raise S A e).
Proof. intros s; reflexivity. Qed.

Lemma read_only_attr {S A} (f : S -> A) : read_only (attr f).
Proof. intros s; reflexivity. Qed.

Lemma read_only_call {S A} (r : result A) : read_only (@call S A r).
Proof. intros s; reflexivity. Qed.

Lemma read_only_bind {S A B} (m : M S A) (k : A -> M S B) :
  read_only m -> (forall a, read_only (k a)) -> read_only (bind m k).
Proof.
  intros Hm Hk s. unfold state_after, bind.
  specialize (Hm s). unfold state_after in Hm.
  destruct (m s) as [[a|e] s']; simpl in *; subst s'.
  - apply Hk.
  - reflexivity.
Qed.

Lemma read_only_if {S A} (b : bool) (m1 m2 : M S A) :
  read_only m1 -> read_only m2 -> read_only (if b then m1 else m2).
Proof. destruct b; auto. Qed.

Create HintDb frame discriminated.
#[export] Hint Resolve read_only_ret read_only_raise read_only_attr
  read_only_call read_only_if : frame.
#[export] Hint Extern 2 (read_only (bind _ _)) =>
  apply read_only_bind; [| intros ?] : frame.

(** A read-only computation gives the same answer when it is run again. *)
Lemma read_only_again {S A} (m : M S A) (s : S) :
  read_only m -> value m (state_after m s) = value m s.
Proof. intros H. rewrite H. reflexivity. Qed.

Lemma value_bind {S A B} (m : M S A) (k : A -> M S B) (s : S) :
  read_only m ->
  value (bind m k) s =
    match value m s with
    | Ok a => value (k a) s
    | Raise e => Raise e
    end.
Proof.
  intros Hm. specialize (Hm s). unfold value, state_after, bind in *.
  destruct (m s) as [[a|e] s']; simpl in *; subst; reflexivity.
Qed.

Section CredentialFacts.
Context `{E : Externals}.
Import Credential.

Lemma signing_pk_read_only : read_only signing_pk.
Proof. unfold signing_pk. auto with frame. Qed.

Lemma withdrawal_pk_read_only : read_only withdrawal_pk.
Proof. unfold withdrawal_pk. auto with frame. Qed.

Lemma withdrawal_credentials_read_only : read_only withdrawal_credentials.
Proof.
  unfold withdrawal_credentials.
  auto using withdrawal_pk_read_only with frame.
Qed.

Lemma deposit_message_read_only : read_only deposit_message.
Proof.
  unfold deposit_message.
  auto 8 using signing_pk_read_only, withdrawal_credentials_read_only
    with frame.
Qed.

Lemma generate_signed_deposit_read_only ov :
  read_only (generate_signed_deposit ov).
Proof.
  unfold generate_signed_deposit.
  auto 10 using deposit_message_read_only with frame.
Qed.

Lemma generate_deposit_datum_dict_read_only ov :
  read_only (generate_deposit_datum_dict ov).
Proof.
  unfold generate_deposit_datum_dict.
  auto 12 using deposit_message_read_only, generate_signed_deposit_read_only
    with frame.
Qed.

Lemma verify_keystore_read_only file password :
  read_only (verify_keystore file password).
Proof. unfold verify_keystore. auto 8 with frame. Qed.

(** What each property evaluates to. *)

Lemma signing_pk_value c : value signing_pk c = Ok (SkToPk (signing_sk c)).
Proof. reflexivity. Qed.

Lemma withdrawal_pk_value c :
  value withdrawal_pk c = Ok (SkToPk (withdrawal_sk c)).
Proof. reflexivity. Qed.

Lemma withdrawal_credentials_value c :
  value withdrawal_credentials c = Ok (derived_withdrawal_credentials c).
Proof. reflexivity. Qed.

Lemma deposit_message_value c :
  value deposit_message c =
    if in_bounds (amount c) then Ok (message_of c None)
    else Raise (out_of_bounds_error (amount c)).
Proof.
  unfold value, deposit_message, bind, attr, in_bounds, out_of_bounds_error.
  simpl. destruct (_ && _); simpl; [reflexivity|].
  destruct (true_division_overflows _ _); reflexivity.
Qed.

(** An amount of at most 64 bits, of either sign, is far from the overflow
    of the division. *)
Lemma out_of_bounds_error_small (a : Z) :
  (- 2 ^ 64 <= a <= 2 ^ 64)%Z -> out_of_bounds_error a = ValidationError.
Proof.
  intros Ha. unfold out_of_bounds_error, true_division_overflows, ETH2GWEI.
  assert (Hbig : (2 ^ 64 < (2 ^ 1024 - 2 ^ 970) * Z.abs (10 ^ 9))%Z)
    by (vm_compute; reflexivity).
  destruct (Z.leb_spec ((2 ^ 1024 - 2 ^ 970) * Z.abs (10 ^ 9)) (Z.abs a))
    as [Hle|_]; [lia | reflexivity].
Qed.

Lemma generate_signed_deposit_value c ov :
  value (generate_signed_deposit ov) c =
    match compute_deposit_domain (fork_version c) with
    | Raise e => Raise e
    | Ok domain =>
        if in_bounds (amount c) then
          match compute_signing_root (message_of c ov) domain with
          | Raise e => Raise e
          | Ok signing_root =>
              Ok (DepositData.of_message (message_of c ov)
                    (Sign (signing_sk c) signing_root))
          end
        else Raise (out_of_bounds_error (amount c))
    end.
Proof.
  unfold value, generate_signed_deposit, deposit_message, bind, attr, call,
    in_bounds, out_of_bounds_error.
  simpl. destruct (compute_deposit_domain _) as [domain|e]; simpl; [|done].
  destruct (_ && _); simpl;
    [|destruct (true_division_overflows _ _); done].
  destruct ov as [w|]; simpl;
    (destruct (compute_signing_root _ _) as [root|e]; simpl; done).
Qed.

(** The four entries [generate_deposit_datum_dict] adds to the dictionary
    of the signed deposit. *)
Lemma generate_deposit_datum_dict_value c ov :
  value (generate_deposit_datum_dict ov) c =
    match value (generate_signed_deposit ov) c with
    | Raise e => Raise e
    | Ok signed =>
        match hash_tree_root_message (message_of c None) with
        | Raise e => Raise e
        | Ok dm_root =>
            match hash_tree_root_data signed with
            | Raise e => Raise e
            | Ok dd_root =>
                Ok (<["deposit_cli_version" := VStr DEPOSIT_CLI_VERSION]>
                     (<["fork_version" := VBytes (fork_version c)]>
                       (<["deposit_data_root" := VBytes dd_root]>
                         (<["deposit_message_root" := VBytes dm_root]>
                           (DepositData.as_dict signed)))))
            end
        end
    end.
Proof.
  unfold generate_deposit_datum_dict.
  rewrite value_bind by apply generate_signed_deposit_read_only.
  pose proof (generate_signed_deposit_value c ov) as Hs.
  destruct (value (generate_signed_deposit ov) c) as [signed|e]; [|done].
  rewrite value_bind by apply deposit_message_read_only.
  rewrite deposit_message_value.
  destruct (in_bounds (amount c)).
  - unfold value, bind, call, attr, ret. simpl.
    destruct (hash_tree_root_message _); simpl; [|done].
    destruct (hash_tree_root_data _); simpl; done.
  - destruct (compute_deposit_domain _); discriminate.
Qed.

(** C9: a [Credential] is immutable once constructed.  Each of
    [signing_pk], [withdrawal_pk], [withdrawal_credentials],
    [deposit_message], [generate_signed_deposit] and
    [generate_deposit_datum_dict] hands the object back with its stored
    fields (withdrawal_sk, signing_sk, signing_key_path, amount,
    fork_version) as they were, and called again on the object it left
    behind, with the same argument, returns the same result. *)
Theorem credential_projections_leave_fields (c : Credential.t)
    (ov : option bytes) :
  (state_after signing_pk c = c
   /\ value signing_pk (state_after signing_pk c) = value signing_pk c)
  /\ (state_after withdrawal_pk c = c
      /\ value withdrawal_pk (state_after withdrawal_pk c)
         = value withdrawal_pk c)
  /\ (state_after withdrawal_credentials c = c
      /\ value withdrawal_credentials (state_after withdrawal_credentials c)
         = value withdrawal_credentials c)
  /\ (state_after deposit_message c = c
      /\ value deposit_message (state_after deposit_message c)
         = value deposit_message c)
  /\ (state_after (generate_signed_deposit ov) c = c
      /\ value (generate_signed_deposit ov)
           (state_after (generate_signed_deposit ov) c)
         = value (generate_signed_deposit ov) c)
  /\ (state_after (generate_deposit_datum_dict ov) c = c
      /\ value (generate_deposit_datum_dict ov)
           (state_after (generate_deposit_datum_dict ov) c)
         = value (generate_deposit_datum_dict ov) c).
Proof.
  repeat split;
    first [ apply read_only_again | idtac ];
    first [ apply signing_pk_read_only
          | apply withdrawal_pk_read_only
          | apply withdrawal_credentials_read_only
          | apply deposit_message_read_only
          | apply generate_signed_deposit_read_only
          | apply generate_deposit_datum_dict_read_only ].
Qed.

(** C4: the withdrawal credentials are 32 bytes, the prefix byte 0x00
    followed by bytes 1 to 31 of SHA256(withdrawal_pk), with
    withdrawal_pk = SkToPk(withdrawal_sk); SHA256 digests being 32 bytes
    long. *)
Theorem withdrawal_credentials_layout (c : Credential.t) :
  (forall b, length (SHA256 b) = 32) ->
  exists wc pk,
    value withdrawal_credentials c = Ok wc
    /\ value withdrawal_pk c = Ok pk
    /\ pk = SkToPk (withdrawal_sk c)
    /\ length wc = 32
    /\ wc !! 0 = Some Byte.x00
    /\ drop 1 wc = drop 1 (SHA256 pk)
    /\ length (drop 1 wc) = 31
    /\ (forall i, 1 <= i < 32 -> wc !! i = SHA256 pk !! i).
Proof.
  intros Hlen.
  exists (derived_withdrawal_credentials c), (SkToPk (withdrawal_sk c)).
  pose proof (Hlen (SkToPk (withdrawal_sk c))) as H32.
  unfold derived_withdrawal_credentials, BLS_WITHDRAWAL_PREFIX.
  destruct (SHA256 (SkToPk (withdrawal_sk c))) as [|b0 rest] eqn:Hd;
    [discriminate|].
  simpl in H32. simpl. rewrite !drop_0.
  repeat split; try reflexivity; try lia.
  - rewrite withdrawal_credentials_value.
    unfold derived_withdrawal_credentials, BLS_WITHDRAWAL_PREFIX.
    rewrite Hd. reflexivity.
  - intros i [Hi _]. destruct i as [|i]; [lia|]. reflexivity.
Qed.

(** C3: for a credential whose amount is a uint64, and bounds that are
    uint64 amounts themselves, [deposit_message] raises, and then a
    [ValidationError], exactly when the amount lies outside
    [MIN_DEPOSIT_AMOUNT, MAX_DEPOSIT_AMOUNT]; one below the minimum and one
    above the maximum fail, the minimum and the maximum themselves succeed
    with the message made of signing_pk, the derived withdrawal credentials
    and the amount. *)
Theorem deposit_message_bounds (c : Credential.t) :
  (0 <= MIN_DEPOSIT_AMOUNT)%Z ->
  (MIN_DEPOSIT_AMOUNT <= MAX_DEPOSIT_AMOUNT)%Z ->
  (MAX_DEPOSIT_AMOUNT < 2 ^ 64)%Z ->
  (0 <= amount c < 2 ^ 64)%Z ->
  (value deposit_message c = Raise ValidationError
     <-> (amount c < MIN_DEPOSIT_AMOUNT \/ MAX_DEPOSIT_AMOUNT < amount c)%Z)
  /\ (forall e, value deposit_message c = Raise e -> e = ValidationError)
  /\ ((MIN_DEPOSIT_AMOUNT <= amount c <= MAX_DEPOSIT_AMOUNT)%Z ->
      value deposit_message c =
        Ok {| DepositMessage.pubkey := SkToPk (signing_sk c);
              DepositMessage.withdrawal_credentials :=
                BLS_WITHDRAWAL_PREFIX
                  ++ drop 1 (SHA256 (SkToPk (withdrawal_sk c)));
              DepositMessage.amount := amount c |})
  /\ value deposit_message (with_amount c (MIN_DEPOSIT_AMOUNT - 1))
     = Raise ValidationError
  /\ value deposit_message (with_amount c (MAX_DEPOSIT_AMOUNT + 1))
     = Raise ValidationError
  /\ value deposit_message (with_amount c MIN_DEPOSIT_AMOUNT)
     = Ok (message_of (with_amount c MIN_DEPOSIT_AMOUNT) None)
  /\ value deposit_message (with_amount c MAX_DEPOSIT_AMOUNT)
     = Ok (message_of (with_amount c MAX_DEPOSIT_AMOUNT) None).
Proof.
  intros Hmin Hconst Hmax Hamount.
  assert (H64 : (0 < 2 ^ 64)%Z) by reflexivity.
  assert (Hin : forall a, in_bounds a = true
                          <-> (MIN_DEPOSIT_AMOUNT <= a <= MAX_DEPOSIT_AMOUNT)%Z).
  { intros a. unfold in_bounds. rewrite andb_true_iff, !Z.leb_le. tauto. }
  assert (Hout : forall c',
            (- 2 ^ 64 <= amount c' <= 2 ^ 64)%Z ->
            ~ (MIN_DEPOSIT_AMOUNT <= amount c' <= MAX_DEPOSIT_AMOUNT)%Z ->
            value deposit_message c' = Raise ValidationError).
  { intros c' Hsmall Hc'. rewrite deposit_message_value.
    destruct (in_bounds (amount c')) eqn:Hb.
    - apply Hin in Hb. contradiction.
    - by rewrite out_of_bounds_error_small. }
  assert (Hok : forall c', (MIN_DEPOSIT_AMOUNT <= amount c' <= MAX_DEPOSIT_AMOUNT)%Z ->
                           value deposit_message c' = Ok (message_of c' None)).
  { intros c' Hc'. rewrite deposit_message_value.
    apply Hin in Hc'. rewrite Hc'. done. }
  repeat split.
  - intros Hr.
    destruct (decide (MIN_DEPOSIT_AMOUNT <= amount c <= MAX_DEPOSIT_AMOUNT)%Z)
      as [Hyes|Hno]; [|lia].
    rewrite (Hok c Hyes) in Hr. discriminate.
  - intros Ho. apply Hout; lia.
  - intros e He. rewrite deposit_message_value in He.
    destruct (in_bounds (amount c)); [discriminate|].
    rewrite out_of_bounds_error_small in He by lia. congruence.
  - intros Hyes. apply (Hok c Hyes).
  - apply Hout; simpl; lia.
  - apply Hout; simpl; lia.
  - apply Hok. simpl. lia.
  - apply Hok. simpl. lia.
Qed.

Lemma in_bounds_iff a :
  in_bounds a = true
  <-> (MIN_DEPOSIT_AMOUNT <= a <= MAX_DEPOSIT_AMOUNT)%Z.
Proof. unfold in_bounds. rewrite andb_true_iff, !Z.leb_le. tauto. Qed.

(** C2: a call of [generate_signed_deposit] returns a [DepositData]
    exactly when the domain computed from the credential's current
    fork_version exists, the amount is within bounds and the signing root
    of the deposit message (the override in its withdrawal_credentials
    field when one is given, the derived credentials otherwise) over that
    domain exists; the result then carries the message's three fields and
    the signature of signing_sk over that signing root.  The call stores
    nothing: after a call and an assignment to fork_version the next call
    answers from the new fork_version alone. *)
Theorem generate_signed_deposit_fresh (c : Credential.t)
    (ov : option bytes) :
  (forall dd,
     value (generate_signed_deposit ov) c = Ok dd
     <-> exists domain signing_root,
           compute_deposit_domain (fork_version c) = Ok domain
           /\ (MIN_DEPOSIT_AMOUNT <= amount c <= MAX_DEPOSIT_AMOUNT)%Z
           /\ compute_signing_root
                {| DepositMessage.pubkey := SkToPk (signing_sk c);
                   DepositMessage.withdrawal_credentials :=
                     match ov with
                     | Some w => w
                     | None =>
                         BLS_WITHDRAWAL_PREFIX
                           ++ drop 1 (SHA256 (SkToPk (withdrawal_sk c)))
                     end;
                   DepositMessage.amount := amount c |}
                domain = Ok signing_root
           /\ dd = {| DepositData.pubkey := SkToPk (signing_sk c);
                      DepositData.withdrawal_credentials :=
                        match ov with
                        | Some w => w
                        | None =>
                            BLS_WITHDRAWAL_PREFIX
                              ++ drop 1 (SHA256 (SkToPk (withdrawal_sk c)))
                        end;
                      DepositData.amount := amount c;
                      DepositData.signature :=
                        Sign (signing_sk c) signing_root |})
  /\ (forall ov0 fv,
        value (generate_signed_deposit ov)
          (with_fork_version (state_after (generate_signed_deposit ov0) c) fv)
        = value (generate_signed_deposit ov) (with_fork_version c fv)).
Proof.
  split.
  - intros dd. rewrite generate_signed_deposit_value.
    change {| DepositMessage.pubkey := SkToPk (signing_sk c);
              DepositMessage.withdrawal_credentials := _;
              DepositMessage.amount := amount c |}
      with (message_of c ov).
    split.
    + destruct (compute_deposit_domain _) as [domain|e]; [|discriminate].
      destruct (in_bounds (amount c)) eqn:Hb; [|discriminate].
      destruct (compute_signing_root _ _) as [root|e] eqn:Hr; [|discriminate].
      intros [= <-]. exists domain, root.
      apply in_bounds_iff in Hb. repeat split; try done; lia.
    + intros (domain & root & -> & Hb & Hr & ->).
      apply in_bounds_iff in Hb. rewrite Hb, Hr. destruct ov; reflexivity.
  - intros ov0 fv. rewrite generate_signed_deposit_read_only. reflexivity.
Qed.

(** The entries of a deposit datum dictionary, for any override. *)
Lemma generate_deposit_datum_dict_entries c ov d :
  value (generate_deposit_datum_dict ov) c = Ok d ->
  exists signed dm_root dd_root,
    value (generate_signed_deposit ov) c = Ok signed
    /\ hash_tree_root_message (message_of c None) = Ok dm_root
    /\ hash_tree_root_data signed = Ok dd_root
    /\ d !! "pubkey" = Some (VBytes (DepositData.pubkey signed))
    /\ d !! "withdrawal_credentials"
       = Some (VBytes (DepositData.withdrawal_credentials signed))
    /\ d !! "amount" = Some (VInt (DepositData.amount signed))
    /\ d !! "signature" = Some (VBytes (DepositData.signature signed))
    /\ d !! "deposit_message_root" = Some (VBytes dm_root)
    /\ d !! "deposit_data_root" = Some (VBytes dd_root)
    /\ d !! "fork_version" = Some (VBytes (fork_version c))
    /\ d !! "deposit_cli_version" = Some (VStr DEPOSIT_CLI_VERSION).
Proof.
  rewrite generate_deposit_datum_dict_value.
  destruct (value (generate_signed_deposit ov) c) as [signed|e];
    [|discriminate].
  destruct (hash_tree_root_message _) as [dm_root|e] eqn:Hm; [|discriminate].
  destruct (hash_tree_root_data _) as [dd_root|e] eqn:Hdd; [|discriminate].
  intros [= <-]. exists signed, dm_root, dd_root.
  unfold DepositData.as_dict.
  repeat split; try done; by simplify_map_eq.
Qed.

(** Without an override the entry deposit_message_root is the root of the
    message that was signed. *)
Lemma generate_deposit_datum_dict_without_override c d :
  value (generate_deposit_datum_dict None) c = Ok d ->
  exists signed root,
    value (generate_signed_deposit None) c = Ok signed
    /\ hash_tree_root_message
         {| DepositMessage.pubkey := DepositData.pubkey signed;
            DepositMessage.withdrawal_credentials :=
              DepositData.withdrawal_credentials signed;
            DepositMessage.amount := DepositData.amount signed |} = Ok root
    /\ d !! "deposit_message_root" = Some (VBytes root).
Proof.
  intros Hd.
  destruct (generate_deposit_datum_dict_entries c None d Hd)
    as (signed & dm_root & dd_root & Hs & Hm & _ & _ & _ & _ & _ & Hmr & _).
  exists signed, dm_root. split; [done|]. split; [|done].
  rewrite generate_signed_deposit_value in Hs.
  destruct (compute_deposit_domain _); [|discriminate].
  destruct (in_bounds _); [|discriminate].
  destruct (compute_signing_root _ _); [|discriminate].
  injection Hs as <-. exact Hm.
Qed.

(** C1: with an override [w], the dictionary is the signed deposit's
    (whose withdrawal_credentials are [w]) extended with
    deposit_data_root, fork_version and the version tag as stated, but its
    deposit_message_root is the root of the message with the DERIVED
    withdrawal credentials: whenever the root of the message actually
    signed differs from it, the entry is not the root of the signed
    message. *)
Theorem generate_deposit_datum_dict_message_root_ignores_override
    (c : Credential.t) (w : bytes) (d : gmap string pyval) :
  value (generate_deposit_datum_dict (Some w)) c = Ok d ->
  exists signed root_derived dd_root,
    value (generate_signed_deposit (Some w)) c = Ok signed
    /\ DepositData.withdrawal_credentials signed = w
    /\ hash_tree_root_message
         {| DepositMessage.pubkey := SkToPk (signing_sk c);
            DepositMessage.withdrawal_credentials :=
              BLS_WITHDRAWAL_PREFIX
                ++ drop 1 (SHA256 (SkToPk (withdrawal_sk c)));
            DepositMessage.amount := amount c |} = Ok root_derived
    /\ d !! "deposit_message_root" = Some (VBytes root_derived)
    /\ hash_tree_root_data signed = Ok dd_root
    /\ d !! "deposit_data_root" = Some (VBytes dd_root)
    /\ d !! "withdrawal_credentials" = Some (VBytes w)
    /\ d !! "fork_version" = Some (VBytes (fork_version c))
    /\ d !! "deposit_cli_version" = Some (VStr DEPOSIT_CLI_VERSION)
    /\ (forall root_signed,
          hash_tree_root_message
            {| DepositMessage.pubkey := DepositData.pubkey signed;
               DepositMessage.withdrawal_credentials :=
                 DepositData.withdrawal_credentials signed;
               DepositMessage.amount := DepositData.amount signed |}
            = Ok root_signed ->
          root_signed <> root_derived ->
          d !! "deposit_message_root" <> Some (VBytes root_signed)).
Proof.
  intros Hd.
  destruct (generate_deposit_datum_dict_entries c (Some w) d Hd)
    as (signed & dm_root & dd_root & Hs & Hm & Hdd & Hpk & Hwc & Ha & Hsig
        & Hmr & Hdr & Hfv & Hv).
  exists signed, dm_root, dd_root.
  assert (Hw : DepositData.withdrawal_credentials signed = w).
  { rewrite generate_signed_deposit_value in Hs.
    destruct (compute_deposit_domain _); [|discriminate].
    destruct (in_bounds _); [|discriminate].
    destruct (compute_signing_root _ _); [|discriminate].
    injection Hs as <-. reflexivity. }
  repeat split; try done.
  - by rewrite Hwc, Hw.
  - intros root_signed _ Hne. rewrite Hmr. congruence.
Qed.
End CredentialFacts.

(** ** Derivation paths *)

Lemma no_slash_cons ch s : ch <> "/"%char -> no_slash s -> no_slash (String ch s).
Proof. intros Hch Hs. unfold no_slash. simpl. by constructor. Qed.

Lemma pretty_N_char_no_slash x : pretty_N_char x <> "/"%char.
Proof. unfold pretty_N_char. by repeat case_match. Qed.

Lemma pretty_N_go_no_slash x s : no_slash s -> no_slash (pretty_N_go x s).
Proof.
  revert s. induction (N.lt_wf_0 x) as [x _ IH]. intros s Hs.
  destruct (decide (x = 0)%N) as [->|Hx].
  - by rewrite pretty_N_go_0.
  - rewrite pretty_N_go_step by lia.
    apply IH.
    + apply N.div_lt; lia.
    + apply no_slash_cons; [apply pretty_N_char_no_slash | done].
Qed.

Lemma pretty_N_no_slash (x : N) : no_slash (pretty x).
Proof.
  unfold pretty, pretty_N. case_decide.
  - by repeat constructor.
  - apply pretty_N_go_no_slash. constructor.
Qed.

(** [str(index)] holds digits and at most a sign, never a separator. *)
Lemma pretty_Z_no_slash (index : Z) : no_slash (pretty index).
Proof.
  unfold pretty, pretty_Z. destruct index as [|p|p].
  - by repeat constructor.
  - apply (pretty_N_no_slash (N.pos p)).
  - apply no_slash_cons; [done | apply (pretty_N_no_slash (N.pos p))].
Qed.

Lemma append_String ch (a b : string) :
  String ch a +:+ b = String ch (a +:+ b).
Proof. reflexivity. Qed.

Ltac solve_no_slash :=
  first [ apply pretty_Z_no_slash
        | unfold no_slash; simpl; repeat constructor; discriminate ].

Lemma split_slash_segment s rest :
  no_slash s ->
  split_slash (s +:+ String "/" rest) = s :: split_slash rest.
Proof.
  unfold no_slash. induction s as [|ch s IH]; intros Hs.
  - reflexivity.
  - rewrite append_String. simpl in *.
    inversion Hs as [|? ? Hch Hs']; subst.
    destruct (Ascii.eqb ch "/") eqn:Heq.
    + apply Ascii.eqb_eq in Heq. contradiction.
    + rewrite (IH Hs'). reflexivity.
Qed.

Lemma string_app_assoc (a b c : string) : (a +:+ b) +:+ c = a +:+ (b +:+ c).
Proof.
  induction a as [|ch a IH]; [done|].
  by rewrite !append_String, IH.
Qed.

Lemma withdrawal_key_path_segments (index : Z) :
  split_slash (Credential.withdrawal_key_path_of index)
  = ["m"; "12381"; "3600"; pretty index; "0"].
Proof.
  change (Credential.withdrawal_key_path_of index)
    with ("m" +:+ String "/" ("12381" +:+ String "/" ("3600" +:+ String "/"
            (pretty index +:+ String "/" "0")))).
  rewrite !split_slash_segment by solve_no_slash.
  reflexivity.
Qed.

Lemma signing_key_path_segments (index : Z) :
  split_slash (Credential.signing_key_path_of index)
  = ["m"; "12381"; "3600"; pretty index; "0"; "0"].
Proof.
  unfold Credential.signing_key_path_of.
  change (Credential.withdrawal_key_path_of index)
    with ("m" +:+ String "/" ("12381" +:+ String "/" ("3600" +:+ String "/"
            (pretty index +:+ String "/" "0")))).
  repeat (rewrite string_app_assoc || rewrite (append_String "/")).
  rewrite !split_slash_segment by solve_no_slash.
  reflexivity.
Qed.

Lemma string_length_app (a b : string) :
  String.length (a +:+ b) = String.length a + String.length b.
Proof.
  induction a as [|ch a IH]; [done|].
  rewrite append_String. simpl. by rewrite IH.
Qed.

Lemma signing_path_differs (index : Z) :
  Credential.signing_key_path_of index <> Credential.withdrawal_key_path_of index.
Proof.
  unfold Credential.signing_key_path_of. intros Heq.
  apply (f_equal String.length) in Heq.
  rewrite string_length_app in Heq. simpl in Heq. lia.
Qed.

(** ** Construction *)

Section ConstructionFacts.
Context `{E : Externals}.

(** One run of [Credential.__init__]: the first failing derivation ends
    it, and every derivation asked for is on the trace. *)
Lemma init_run mnemonic password index amount fv (tr : Trace) :
  Credential.init mnemonic password index amount fv tr =
    match mnemonic_and_path_to_key mnemonic
            (Credential.withdrawal_key_path_of index) password with
    | Raise e =>
        (Raise e,
         tr ++ [KeyDerivationCall mnemonic
                  (Credential.withdrawal_key_path_of index) password])
    | Ok wsk =>
        match mnemonic_and_path_to_key mnemonic
                (Credential.signing_key_path_of index) password with
        | Raise e => (Raise e, tr ++ derivations_of mnemonic password index)
        | Ok ssk =>
            (Ok {| Credential.withdrawal_sk := wsk;
                   Credential.signing_sk := ssk;
                   Credential.signing_key_path :=
                     Credential.signing_key_path_of index;
                   Credential.amount := amount;
                   Credential.fork_version := fv |},
             tr ++ derivations_of mnemonic password index)
        end
    end.
Proof.
  unfold Credential.init, Credential.derive_key, bind, emit, call, ret,
    derivations_of.
  simpl.
  destruct (mnemonic_and_path_to_key mnemonic
              (Credential.withdrawal_key_path_of index) password); [|done].
  rewrite <- app_assoc. simpl.
  destruct (mnemonic_and_path_to_key mnemonic
              (Credential.signing_key_path_of index) password); done.
Qed.

Lemma init_marks_trace mnemonic password index amount fv (tr : Trace) :
  state_after (Credential.init mnemonic password index amount fv) tr <> tr.
Proof.
  unfold state_after. rewrite init_run. intros Heq.
  apply (f_equal (@length Event)) in Heq. revert Heq.
  repeat case_match; simpl; rewrite length_app; simpl; lia.
Qed.

(** C8: the credential of account index [index] has
    withdrawal path m/12381/3600/index/0 and signing path
    withdrawal path + /0; the two differ, their segments are
    m, 12381, 3600, index, 0 and the same followed by one more 0, and
    withdrawal_sk and signing_sk are what the key derivation returns for
    the withdrawal path and the signing path respectively. *)
Theorem credential_derivation_paths (mnemonic password : string)
    (index amount : Z) (fv : bytes) (tr : Trace) (c : Credential.t) :
  value (Credential.init mnemonic password index amount fv) tr = Ok c ->
  Credential.withdrawal_key_path_of index
    = "m/12381/3600/" +:+ pretty index +:+ "/0"
  /\ Credential.signing_key_path c
     = Credential.withdrawal_key_path_of index +:+ "/0"
  /\ Credential.signing_key_path c <> Credential.withdrawal_key_path_of index
  /\ split_slash (Credential.withdrawal_key_path_of index)
     = ["m"; "12381"; "3600"; pretty index; "0"]
  /\ split_slash (Credential.signing_key_path c)
     = ["m"; "12381"; "3600"; pretty index; "0"; "0"]
  /\ mnemonic_and_path_to_key mnemonic
       (Credential.withdrawal_key_path_of index) password
     = Ok (Credential.withdrawal_sk c)
  /\ mnemonic_and_path_to_key mnemonic (Credential.signing_key_path c) password
     = Ok (Credential.signing_sk c)
  /\ state_after (Credential.init mnemonic password index amount fv) tr
     = tr ++ [KeyDerivationCall mnemonic
                (Credential.withdrawal_key_path_of index) password;
              KeyDerivationCall mnemonic (Credential.signing_key_path c)
                password].
Proof.
  unfold value, state_after. rewrite init_run.
  destruct (mnemonic_and_path_to_key mnemonic
              (Credential.withdrawal_key_path_of index) password)
    as [wsk|e] eqn:Hw; [|discriminate].
  destruct (mnemonic_and_path_to_key mnemonic
              (Credential.signing_key_path_of index) password)
    as [ssk|e] eqn:Hs; [|discriminate].
  simpl. intros [= <-]. simpl.
  repeat split; try done.
  - apply signing_path_differs.
  - apply withdrawal_key_path_segments.
  - apply signing_key_path_segments.
Qed.

(** C5: when len(amounts) differs from num_keys, [from_mnemonic] raises
    [ValueError] and leaves the trace of key derivations as it was: no
    derivation was requested and no [CredentialList] is returned.  As every
    run of the [Credential] constructor adds to that trace, no
    [Credential] was constructed either. *)
Theorem from_mnemonic_length_mismatch (mnemonic password : string)
    (num_keys : Z) (amounts : list Z) (fv : bytes) (start_index : Z)
    (tr : Trace) :
  Z.of_nat (length amounts) <> num_keys ->
  CredentialList.from_mnemonic mnemonic password num_keys amounts fv
    start_index tr = (Raise ValueError, tr)
  /\ (forall index amount tr',
        state_after (Credential.init mnemonic password index amount fv) tr'
        <> tr').
Proof.
  intros Hne. split.
  - unfold CredentialList.from_mnemonic.
    destruct (Z.eqb_spec (Z.of_nat (length amounts)) num_keys) as [Heq|_];
      [contradiction|].
    reflexivity.
  - intros index amount tr'. apply init_marks_trace.
Qed.

Lemma py_index_in_range {A} (l : list A) (k : nat) (a : A) :
  l !! k = Some a -> py_index l (Z.of_nat k) = Ok a.
Proof.
  intros Hk. unfold py_index.
  assert (Hpos : (Z.of_nat k <? 0)%Z = false) by (apply Z.ltb_ge; lia).
  rewrite !Hpos, Nat2Z.id, Hk. reflexivity.
Qed.

(** A comprehension whose every element is built without an exception
    returns the elements in the order of the iterated list, and the traces
    of the elements follow one another in that order. *)
Lemma comprehension_run {A B} (f : A -> M Trace B) (ev : A -> Trace)
    (ks : list A) (cs : list B) :
  Forall2 (fun k c => forall tr, f k tr = (Ok c, tr ++ ev k)) ks cs ->
  forall tr, comprehension f ks tr = (Ok cs, tr ++ concat (map ev ks)).
Proof.
  induction 1 as [|k c ks cs Hk _ IH]; intros tr; simpl.
  - unfold ret. by rewrite app_nil_r.
  - unfold bind at 1. rewrite Hk.
    unfold bind at 1. rewrite IH.
    unfold ret. by rewrite app_assoc.
Qed.

Lemma Forall2_choose {A B} (R : A -> B -> Prop) (ks : list A) :
  Forall (fun k => exists c, R k c) ks -> exists cs, Forall2 R ks cs.
Proof.
  induction 1 as [|k ks [c Hc] _ [cs IH]].
  - exists []. constructor.
  - exists (c :: cs). by constructor.
Qed.

Lemma from_mnemonic_run mnemonic password amounts fv start_index tr :
  (forall k, k < length amounts ->
     is_ok (mnemonic_and_path_to_key mnemonic
              (Credential.withdrawal_key_path_of (start_index + Z.of_nat k))
              password) = true
     /\ is_ok (mnemonic_and_path_to_key mnemonic
                 (Credential.signing_key_path_of (start_index + Z.of_nat k))
                 password) = true) ->
  exists creds,
    CredentialList.from_mnemonic mnemonic password
      (Z.of_nat (length amounts)) amounts fv start_index tr
    = (Ok {| CredentialList.credentials := creds |},
       tr ++ concat (map (fun k => derivations_of mnemonic password
                                     (start_index + Z.of_nat k))
                         (seq 0 (length amounts))))
    /\ length creds = length amounts
    /\ (forall k a, amounts !! k = Some a ->
          exists c, creds !! k = Some c
                    /\ built_at mnemonic password start_index fv k a c).
Proof.
  intros Hkeys.
  set (f := fun index =>
              bind (call (py_index amounts (index - start_index)))
                   (fun amount => Credential.init mnemonic password index
                                    amount fv)).
  set (R := fun (k : nat) (c : Credential.t) =>
              (forall tr', f (start_index + Z.of_nat k)%Z tr'
                          = (Ok c, tr' ++ derivations_of mnemonic password
                                            (start_index + Z.of_nat k)))
              /\ forall a, amounts !! k = Some a ->
                           built_at mnemonic password start_index fv k a c).
  assert (Hall : Forall (fun k => exists c, R k c) (seq 0 (length amounts))).
  { apply Forall_forall. intros k Hk. apply elem_of_seq in Hk.
    destruct (Hkeys k) as [Hw Hs]; [lia|].
    destruct (lookup_lt_is_Some_2 amounts k) as [a Ha]; [lia|].
    destruct (mnemonic_and_path_to_key mnemonic
                (Credential.withdrawal_key_path_of _) password)
      as [wsk|] eqn:Hwk; [|discriminate].
    destruct (mnemonic_and_path_to_key mnemonic
                (Credential.signing_key_path_of _) password)
      as [ssk|] eqn:Hsk; [|discriminate].
    eexists. split.
    - intros tr'. unfold f, bind, call.
      replace (start_index + Z.of_nat k - start_index)%Z with (Z.of_nat k)
        by lia.
      rewrite (py_index_in_range _ _ _ Ha), init_run, Hwk, Hsk.
      reflexivity.
    - intros a' Ha'. rewrite Ha in Ha'. injection Ha' as <-.
      unfold built_at. simpl. by rewrite Hwk, Hsk. }
  destruct (Forall2_choose R _ Hall) as [creds Hcreds].
  exists creds.
  assert (Hlen : length creds = length amounts).
  { apply Forall2_length in Hcreds. by rewrite length_seq in Hcreds. }
  split; [|split; [done|]].
  - unfold CredentialList.from_mnemonic.
    rewrite Z.eqb_refl. simpl.
    unfold py_range.
    replace (start_index + Z.of_nat (length amounts) - start_index)%Z
      with (Z.of_nat (length amounts)) by lia.
    rewrite Nat2Z.id. fold f.
    unfold bind at 1.
    rewrite (comprehension_run f
               (fun index => derivations_of mnemonic password index)
               _ creds).
    + unfold ret. by rewrite map_map.
    + apply Forall2_fmap_l.
      eapply Forall2_impl; [exact Hcreds|].
      intros k c [Hrun _]. exact Hrun.
  - intros k a Ha.
    assert (Hk : seq 0 (length amounts) !! k = Some k).
    { apply lookup_seq. split; [done|]. by eapply lookup_lt_Some. }
    destruct (Forall2_lookup_l _ _ _ _ _ Hcreds Hk) as (c & Hc & _ & Hb).
    exists c. split; [done|]. by apply Hb.
Qed.

Lemma built_at_init mnemonic password start_index fv k a c tr :
  built_at mnemonic password start_index fv k a c ->
  value (Credential.init mnemonic password (start_index + Z.of_nat k) a fv) tr
  = Ok c.
Proof.
  intros (Hw & Hs & Hp & Ha & Hf). unfold value.
  rewrite init_run, Hw, Hs. simpl.
  destruct c; simpl in *; by subst.
Qed.

Lemma built_at_key_material mnemonic password start_index fv fv' k a a' c c' :
  built_at mnemonic password start_index fv k a c ->
  built_at mnemonic password start_index fv' k a' c' ->
  (Credential.withdrawal_sk c, Credential.signing_sk c,
   Credential.signing_key_path c)
  = (Credential.withdrawal_sk c', Credential.signing_sk c',
     Credential.signing_key_path c').
Proof.
  intros (Hw & Hs & Hp & _) (Hw' & Hs' & Hp' & _).
  rewrite Hw in Hw'. rewrite Hs in Hs'. congruence.
Qed.

(** C6: given len(amounts) = num_keys and a key derivation that accepts
    the paths of the indices start_index .. start_index+num_keys-1,
    [from_mnemonic] returns num_keys credentials; the one at position k is
    the credential constructed for index start_index+k with amount
    amounts[k] and the shared mnemonic, password and fork version; the
    derivations are requested index after index in ascending order; and
    the key material depends on neither the amounts, the fork version nor
    the trace the call starts from. *)
Theorem from_mnemonic_ascending (mnemonic password : string)
    (num_keys : Z) (amounts : list Z) (fv : bytes) (start_index : Z)
    (tr : Trace) :
  Z.of_nat (length amounts) = num_keys ->
  (forall k, k < length amounts ->
     is_ok (mnemonic_and_path_to_key mnemonic
              (Credential.withdrawal_key_path_of (start_index + Z.of_nat k))
              password) = true
     /\ is_ok (mnemonic_and_path_to_key mnemonic
                 (Credential.signing_key_path_of (start_index + Z.of_nat k))
                 password) = true) ->
  exists creds,
    CredentialList.from_mnemonic mnemonic password num_keys amounts fv
      start_index tr
    = (Ok {| CredentialList.credentials := creds |},
       tr ++ concat (map (fun k => derivations_of mnemonic password
                                     (start_index + Z.of_nat k))
                         (seq 0 (length amounts))))
    /\ Z.of_nat (length creds) = num_keys
    /\ py_range start_index (start_index + num_keys)
       = map (fun k => (start_index + Z.of_nat k)%Z) (seq 0 (length creds))
    /\ (forall k a,
          amounts !! k = Some a ->
          exists c,
            creds !! k = Some c
            /\ (forall tr0,
                  value (Credential.init mnemonic password
                           (start_index + Z.of_nat k) a fv) tr0 = Ok c)
            /\ Credential.amount c = a
            /\ Credential.fork_version c = fv
            /\ Credential.signing_key_path c
               = Credential.signing_key_path_of (start_index + Z.of_nat k)
            /\ mnemonic_and_path_to_key mnemonic
                 (Credential.withdrawal_key_path_of
                    (start_index + Z.of_nat k)) password
               = Ok (Credential.withdrawal_sk c)
            /\ mnemonic_and_path_to_key mnemonic
                 (Credential.signing_key_path_of
                    (start_index + Z.of_nat k)) password
               = Ok (Credential.signing_sk c))
    /\ (forall amounts' fv' tr',
          length amounts' = length amounts ->
          key_material
            (value (CredentialList.from_mnemonic mnemonic password num_keys
                      amounts' fv' start_index) tr')
          = key_material (Ok {| CredentialList.credentials := creds |})).
Proof.
  intros <- Hkeys.
  destruct (from_mnemonic_run mnemonic password amounts fv start_index tr
              Hkeys) as (creds & Hrun & Hlen & Hat).
  exists creds. split; [exact Hrun|].
  split; [by rewrite Hlen|].
  split.
  { unfold py_range. rewrite Hlen. do 2 f_equal. lia. }
  split.
  - intros k a Ha. destruct (Hat k a Ha) as (c & Hc & Hb).
    exists c. split; [done|]. split.
    + intros tr0. by eapply built_at_init.
    + destruct Hb as (Hw & Hs & Hp & Hamt & Hfv). by repeat split.
  - intros amounts' fv' tr' Hlen'.
    assert (Hkeys' : forall k, k < length amounts' ->
              is_ok (mnemonic_and_path_to_key mnemonic
                       (Credential.withdrawal_key_path_of
                          (start_index + Z.of_nat k)) password) = true
              /\ is_ok (mnemonic_and_path_to_key mnemonic
                          (Credential.signing_key_path_of
                             (start_index + Z.of_nat k)) password) = true).
    { intros k Hk. apply Hkeys. lia. }
    destruct (from_mnemonic_run mnemonic password amounts' fv' start_index
                tr' Hkeys') as (creds' & Hrun' & Hlen2 & Hat').
    rewrite <- Hlen'. unfold value. rewrite Hrun'. simpl. f_equal.
    apply list_eq. intros k. rewrite !list_lookup_fmap.
    destruct (amounts !! k) as [a|] eqn:Ha.
    + destruct (lookup_lt_is_Some_2 amounts' k) as [a' Ha'].
      { rewrite Hlen'. by eapply lookup_lt_Some. }
      destruct (Hat k a Ha) as (c & -> & Hb).
      destruct (Hat' k a' Ha') as (c' & -> & Hb').
      simpl. f_equal. symmetry. by eapply built_at_key_material.
    + apply lookup_ge_None in Ha.
      rewrite !(proj2 (lookup_ge_None _ _)) by lia. done.
Qed.
End ConstructionFacts.

(** ** Big-endian integers *)

Lemma int_from_bytes_big_snoc (l : bytes) (b : Byte.byte) :
  int_from_bytes_big (l ++ [b])
  = (int_from_bytes_big l * 256 + Z.of_N (Byte.to_N b))%Z.
Proof. unfold int_from_bytes_big. by rewrite fold_left_app. Qed.

Lemma byte_value_range (b : Byte.byte) : (0 <= Z.of_N (Byte.to_N b) < 256)%Z.
Proof. pose proof (Byte.to_N_bounded b). lia. Qed.

Lemma byte_of_Z_last (x : Z) (b : Byte.byte) :
  byte_of_Z (x * 256 + Z.of_N (Byte.to_N b)) = b.
Proof.
  unfold byte_of_Z. pose proof (byte_value_range b) as Hb.
  rewrite Z.add_comm, Z.mod_add by lia.
  rewrite Z.mod_small by lia.
  by rewrite N2Z.id, Byte.of_to_N.
Qed.

Lemma length_big_endian_digits (len : nat) (n : Z) :
  length (big_endian_digits len n) = len.
Proof.
  revert n. induction len as [|len IH]; intros n; simpl; [done|].
  rewrite length_app, IH. simpl. lia.
Qed.

(** Writing the integer of a byte string back on as many bytes gives the
    byte string again. *)
Lemma big_endian_digits_of_bytes (l : bytes) :
  big_endian_digits (length l) (int_from_bytes_big l) = l.
Proof.
  induction l as [|b l IH] using rev_ind; [done|].
  rewrite length_app, Nat.add_comm. simpl.
  rewrite int_from_bytes_big_snoc, byte_of_Z_last.
  pose proof (byte_value_range b) as Hb.
  replace ((int_from_bytes_big l * 256 + Z.of_N (Byte.to_N b)) / 256)%Z
    with (int_from_bytes_big l).
  - by rewrite IH.
  - rewrite Z.add_comm, Z.div_add by lia.
    rewrite Z.div_small by lia. lia.
Qed.

(** ** Verification of keystores *)

Lemma py_zip_lookup {A B} (xs : list A) (ys : list B) i x y :
  py_zip xs ys !! i = Some (x, y) <-> xs !! i = Some x /\ ys !! i = Some y.
Proof.
  revert ys i. induction xs as [|x0 xs IH]; intros [|y0 ys] i; simpl;
    try (split; [done | intros [? ?]; done]).
  destruct i as [|i]; simpl.
  - split; [intros [= -> ->]; done | intros [[= ->] [= ->]]; done].
  - apply IH.
Qed.

Lemma py_zip_take {A B} (xs : list A) (ys : list B) :
  py_zip xs ys = py_zip (take (length ys) xs) (take (length xs) ys).
Proof.
  revert ys. induction xs as [|x xs IH]; intros [|y ys]; simpl; try done.
  by rewrite <- IH.
Qed.

Lemma py_zip_app_l {A B} (xs rest : list A) (ys : list B) :
  length ys <= length xs -> py_zip (xs ++ rest) ys = py_zip xs ys.
Proof.
  revert ys. induction xs as [|x xs IH]; intros [|y ys]; simpl; intros Hlen;
    try done; try lia.
  - by destruct rest.
  - rewrite IH by lia. done.
Qed.

Lemma py_zip_app_r {A B} (xs : list A) (ys extra : list B) :
  length xs <= length ys -> py_zip xs (ys ++ extra) = py_zip xs ys.
Proof.
  revert ys. induction xs as [|x xs IH]; intros [|y ys]; simpl; intros Hlen;
    try done; try lia.
  rewrite IH by lia. done.
Qed.

Lemma py_all_true (xs : list (result bool)) :
  py_all xs = Ok true <-> Forall (fun r => r = Ok true) xs.
Proof.
  induction xs as [|[[|]|e] xs IH]; simpl.
  - split; [constructor | done].
  - rewrite IH. split; [by constructor | by inversion 1].
  - split; [done | by inversion 1].
  - split; [done | by inversion 1].
Qed.

(** When no element raises, [all] is the conjunction of the elements. *)
Lemma py_all_conjunction (bs : list bool) :
  py_all (map Ok bs) = Ok (fold_right andb true bs).
Proof. induction bs as [|[|] bs IH]; simpl; done. Qed.

(** [all] answers with the first element that is not [True]. *)
Lemma py_all_first_not_true (before after : list (result bool))
    (r : result bool) :
  Forall (fun x => x = Ok true) before ->
  r <> Ok true ->
  py_all (before ++ r :: after) = r.
Proof.
  intros Hbefore Hr. induction Hbefore as [|x before -> _ IH]; simpl.
  - destruct r as [[|]|e]; done.
  - exact IH.
Qed.

Section VerificationFacts.
Context `{E : Externals}.

Lemma verify_keystore_value c file password :
  value (Credential.verify_keystore file password) c =
    match Keystore_from_file file with
    | Raise e => Raise e
    | Ok ks =>
        match Keystore_decrypt ks password with
        | Raise e => Raise e
        | Ok secret =>
            Ok (Credential.signing_sk c =? int_from_bytes_big secret)%Z
        end
    end.
Proof.
  unfold value, Credential.verify_keystore, bind, call, attr, ret.
  destruct (Keystore_from_file file) as [ks|e]; simpl; [|done].
  destruct (Keystore_decrypt ks password); done.
Qed.

Lemma verify_keystore_true c file password :
  value (Credential.verify_keystore file password) c = Ok true
  <-> exists ks secret,
        Keystore_from_file file = Ok ks
        /\ Keystore_decrypt ks password = Ok secret
        /\ int_from_bytes_big secret = Credential.signing_sk c.
Proof.
  rewrite verify_keystore_value. split.
  - destruct (Keystore_from_file file) as [ks|e]; [|done].
    destruct (Keystore_decrypt ks password) as [secret|e] eqn:Hd; [|done].
    intros [= Heq]. apply Z.eqb_eq in Heq. by exists ks, secret.
  - intros (ks & secret & -> & -> & Heq).
    f_equal. apply Z.eqb_eq. done.
Qed.

Lemma verify_keystores_value cl files password :
  value (CredentialList.verify_keystores files password) cl
  = py_all (map (CredentialList.verify_pair password)
                (py_zip (CredentialList.credentials cl) files)).
Proof. reflexivity. Qed.

Lemma verify_keystores_read_only files password :
  read_only (CredentialList.verify_keystores files password).
Proof. unfold CredentialList.verify_keystores. auto with frame. Qed.

Lemma signing_keystore_value c password fresh :
  value (Credential.signing_keystore password fresh) c =
    match int_to_bytes_big 32 (Credential.signing_sk c) with
    | Raise e => Raise e
    | Ok secret =>
        Ok (ScryptKeystore_encrypt secret password
              (Credential.signing_key_path c) fresh)
    end.
Proof.
  unfold value, Credential.signing_keystore, bind, call, attr, ret. simpl.
  destruct (int_to_bytes_big 32 _); done.
Qed.

(** C7: [verify_keystores] pairs the credentials and the files by
    position, and is true exactly when [verify_keystore] is true on every
    pair; when no pair raises it is the conjunction of the pairs' answers.
    [verify_keystore] is true exactly when the file loads, decrypts under
    the password, and the decrypted bytes read as a big-endian integer
    equal the credential's signing_sk.  For a keystore codec whose
    decryption under another password than the encrypting one either
    fails or yields as many bytes, different from the secret, checking the
    credential's own keystore under a wrong password is never true. *)
Theorem verify_keystores_by_position (cl : CredentialList.t)
    (files : list string) (password : string) :
  (forall secret pw0 path fresh pw1 out,
     pw1 <> pw0 ->
     Keystore_decrypt (ScryptKeystore_encrypt secret pw0 path fresh) pw1
       = Ok out ->
     length out = length secret /\ out <> secret) ->
  (forall i c f,
     py_zip (CredentialList.credentials cl) files !! i = Some (c, f)
     <-> CredentialList.credentials cl !! i = Some c /\ files !! i = Some f)
  /\ (value (CredentialList.verify_keystores files password) cl = Ok true
      <-> forall i c f,
            CredentialList.credentials cl !! i = Some c ->
            files !! i = Some f ->
            value (Credential.verify_keystore f password) c = Ok true)
  /\ (forall bs,
        map (fun item => value (Credential.verify_keystore (snd item) password)
                           (fst item))
            (py_zip (CredentialList.credentials cl) files)
        = map Ok bs ->
        value (CredentialList.verify_keystores files password) cl
        = Ok (fold_right andb true bs))
  /\ (forall c f,
        value (Credential.verify_keystore f password) c = Ok true
        <-> exists ks secret,
              Keystore_from_file f = Ok ks
              /\ Keystore_decrypt ks password = Ok secret
              /\ int_from_bytes_big secret = Credential.signing_sk c)
  /\ (forall c f pw0 fresh ks,
        value (Credential.signing_keystore pw0 fresh) c = Ok ks ->
        Keystore_from_file f = Ok ks ->
        password <> pw0 ->
        value (Credential.verify_keystore f password) c <> Ok true).
Proof.
  intros Hcodec. split; [|split; [|split; [|split]]].
  - intros i c f. apply py_zip_lookup.
  - rewrite verify_keystores_value, py_all_true, Forall_fmap, Forall_lookup.
    split.
    + intros Hall i c f Hc Hf.
      apply (Hall i (c, f)). by apply py_zip_lookup.
    + intros Hall i [c f] Hi. apply py_zip_lookup in Hi as [Hc Hf].
      by apply (Hall i).
  - intros bs Hbs. rewrite verify_keystores_value.
    unfold CredentialList.verify_pair. rewrite Hbs.
    apply py_all_conjunction.
  - intros c f. apply verify_keystore_true.
  - intros c f pw0 fresh ks Hks Hfile Hpw Htrue.
    apply verify_keystore_true in Htrue
      as (ks' & out & Hfile' & Hdec & Hint).
    rewrite Hfile in Hfile'. injection Hfile' as <-.
    rewrite signing_keystore_value in Hks.
    unfold int_to_bytes_big in Hks.
    destruct (_ && _); [|discriminate].
    assert (Hk : ks = ScryptKeystore_encrypt
                       (big_endian_digits 32 (Credential.signing_sk c)) pw0
                       (Credential.signing_key_path c) fresh)
      by congruence.
    rewrite Hk in Hdec.
    destruct (Hcodec _ _ _ _ _ _ Hpw Hdec) as [Hlen Hne].
    apply Hne. rewrite length_big_endian_digits in Hlen.
    rewrite <- Hint, <- Hlen. symmetry. apply big_endian_digits_of_bytes.
Qed.

(** C10: [verify_keystores] looks at the positional pairs only.  It is
    the call on the credentials and files cut to the shorter length;
    credentials beyond the files and files beyond the credentials do not
    change the answer; with no file at all the answer is true whatever the
    credentials; and when the files are fewer and every pair verifies, the
    answer is true whatever credentials follow the paired ones.  With
    files no more than the paired credentials, the answer on the longer
    credential list is determined by the first [len(files)] pairs alone:
    it is true exactly when each of these pairs verifies; when these
    pairs all answer a boolean it is their conjunction; and when the pairs
    before [k] verify and pair [k] answers false or raises, it is that
    answer. *)
Theorem verify_keystores_truncates (creds rest : list Credential.t)
    (files extra : list string) (password : string) :
  value (CredentialList.verify_keystores files password)
    {| CredentialList.credentials := creds |}
  = value (CredentialList.verify_keystores
             (take (length creds) files) password)
      {| CredentialList.credentials := take (length files) creds |}
  /\ value (CredentialList.verify_keystores
              (take (length creds) files) password)
       {| CredentialList.credentials := creds ++ rest |}
     = value (CredentialList.verify_keystores
                (take (length creds) files) password)
         {| CredentialList.credentials := creds |}
  /\ value (CredentialList.verify_keystores (files ++ extra) password)
       {| CredentialList.credentials := take (length files) creds |}
     = value (CredentialList.verify_keystores files password)
         {| CredentialList.credentials := take (length files) creds |}
  /\ value (CredentialList.verify_keystores [] password)
       {| CredentialList.credentials := creds |} = Ok true
  /\ (length files <= length creds ->
      (forall i c f, creds !! i = Some c -> files !! i = Some f ->
         value (Credential.verify_keystore f password) c = Ok true) ->
      value (CredentialList.verify_keystores files password)
        {| CredentialList.credentials := creds ++ rest |} = Ok true)
  /\ (length files <= length creds ->
      (value (CredentialList.verify_keystores files password)
         {| CredentialList.credentials := creds ++ rest |} = Ok true
       <-> forall i c f, creds !! i = Some c -> files !! i = Some f ->
             value (Credential.verify_keystore f password) c = Ok true))
  /\ (length files <= length creds ->
      forall bs : list bool,
        map (CredentialList.verify_pair password)
            (py_zip (take (length files) creds) files)
        = map Ok bs ->
        value (CredentialList.verify_keystores files password)
          {| CredentialList.credentials := creds ++ rest |}
        = Ok (fold_right andb true bs))
  /\ (length files <= length creds ->
      forall (k : nat) (c : Credential.t) (f : string) (r : result bool),
        creds !! k = Some c ->
        files !! k = Some f ->
        (forall i ci fi, i < k ->
           creds !! i = Some ci -> files !! i = Some fi ->
           value (Credential.verify_keystore fi password) ci = Ok true) ->
        value (Credential.verify_keystore f password) c = r ->
        r <> Ok true ->
        value (CredentialList.verify_keystores files password)
          {| CredentialList.credentials := creds ++ rest |} = r).
Proof.
  rewrite !verify_keystores_value. simpl.
  split; [|split; [|split; [|split; [|split; [|split; [|split]]]]]].
  - by rewrite <- py_zip_take.
  - rewrite py_zip_app_l; [done|]. rewrite length_take. lia.
  - rewrite py_zip_app_r; [done|]. rewrite length_take. lia.
  - by destruct creds.
  - intros Hlen Hall. rewrite py_zip_app_l by done.
    apply py_all_true. rewrite Forall_fmap, Forall_lookup.
    intros i [c f] Hi. apply py_zip_lookup in Hi as [Hc Hf].
    by apply (Hall i).
  - intros Hlen. rewrite py_zip_app_l by done.
    rewrite py_all_true, Forall_fmap, Forall_lookup. split.
    + intros Hall i c f Hc Hf.
      apply (Hall i (c, f)). by apply py_zip_lookup.
    + intros Hall i [c f] Hi. apply py_zip_lookup in Hi as [Hc Hf].
      by apply (Hall i).
  - intros Hlen bs Hbs. rewrite py_zip_app_l by done.
    rewrite (py_zip_take creds files), (take_ge files) by lia.
    rewrite Hbs. apply py_all_conjunction.
  - intros Hlen k c f r Hc Hf Hbefore Hr Hne.
    rewrite py_zip_app_l by done.
    assert (Hk : py_zip creds files !! k = Some (c, f))
      by (by apply py_zip_lookup).
    rewrite <- (take_drop_middle _ _ _ Hk), map_app. simpl.
    unfold CredentialList.verify_pair at 2. simpl. rewrite Hr.
    apply py_all_first_not_true; [|done].
    rewrite Forall_fmap, Forall_lookup. intros i [ci fi] Hi.
    pose proof (lookup_lt_Some _ _ _ Hi) as Hlt.
    rewrite length_take in Hlt.
    rewrite lookup_take_lt in Hi by lia.
    apply py_zip_lookup in Hi as [Hci Hfi].
    apply (Hbefore i ci fi); [lia|done..].
Qed.
End VerificationFacts.

(** * Further properties of the module *)

(** ** Paths of different validators *)

Lemma withdrawal_key_path_inj (i j : Z) :
  Credential.withdrawal_key_path_of i = Credential.withdrawal_key_path_of j ->
  i = j.
Proof.
  intros Heq. apply (f_equal split_slash) in Heq.
  rewrite !withdrawal_key_path_segments in Heq.
  injection Heq as Hp. by apply (inj pretty).
Qed.

Lemma signing_key_path_inj (i j : Z) :
  Credential.signing_key_path_of i = Credential.signing_key_path_of j ->
  i = j.
Proof.
  intros Heq. apply (f_equal split_slash) in Heq.
  rewrite !signing_key_path_segments in Heq.
  injection Heq as Hp. by apply (inj pretty).
Qed.

Lemma withdrawal_path_never_signing_path (i j : Z) :
  Credential.withdrawal_key_path_of i <> Credential.signing_key_path_of j.
Proof.
  intros Heq. apply (f_equal split_slash) in Heq.
  rewrite withdrawal_key_path_segments, signing_key_path_segments in Heq.
  discriminate.
Qed.

(** X1: two account indices have the same withdrawal path only when they are
    equal, likewise for the signing path, and no withdrawal path of any
    index is the signing path of any index: every key of every validator
    has a derivation path of its own. *)
Theorem derivation_paths_separate (i j : Z) :
  (Credential.withdrawal_key_path_of i = Credential.withdrawal_key_path_of j
   <-> i = j)
  /\ (Credential.signing_key_path_of i = Credential.signing_key_path_of j
      <-> i = j)
  /\ Credential.withdrawal_key_path_of i <> Credential.signing_key_path_of j.
Proof.
  split; [|split].
  - split; [apply withdrawal_key_path_inj | by intros ->].
  - split; [apply signing_key_path_inj | by intros ->].
  - apply withdrawal_path_never_signing_path.
Qed.

(** ** Batches that fail, batches that succeed *)

Section BatchFacts.
Context `{E : Externals}.

(** A comprehension stops at its first failing element: the elements after
    it are not built and the trace ends with what that element did. *)
Lemma comprehension_stops {A B} (f : A -> M Trace B) (ev : A -> Trace)
    (ks : list A) (cs : list B) (k : A) (post : list A) (e : exn)
    (last : Trace) :
  Forall2 (fun k c => forall tr, f k tr = (Ok c, tr ++ ev k)) ks cs ->
  (forall tr, f k tr = (Raise e, tr ++ last)) ->
  forall tr,
    comprehension f (ks ++ k :: post) tr
    = (Raise e, tr ++ concat (map ev ks) ++ last).
Proof.
  intros Hks Hk. induction Hks as [|k0 c0 ks cs Hk0 _ IH]; intros tr; simpl.
  - unfold bind at 1. by rewrite Hk.
  - unfold bind at 1. rewrite Hk0.
    unfold bind at 1. rewrite IH.
    by rewrite <- !app_assoc.
Qed.

Lemma batch_element_ok mnemonic password amounts fv start_index k a :
  amounts !! k = Some a ->
  is_ok (mnemonic_and_path_to_key mnemonic
           (Credential.withdrawal_key_path_of (start_index + Z.of_nat k))
           password) = true ->
  is_ok (mnemonic_and_path_to_key mnemonic
           (Credential.signing_key_path_of (start_index + Z.of_nat k))
           password) = true ->
  exists c,
    forall tr,
      bind (call (py_index amounts (start_index + Z.of_nat k - start_index)))
           (fun amount => Credential.init mnemonic password
                            (start_index + Z.of_nat k) amount fv) tr
      = (Ok c, tr ++ derivations_of mnemonic password
                       (start_index + Z.of_nat k)).
Proof.
  intros Ha Hw Hs.
  destruct (mnemonic_and_path_to_key mnemonic
              (Credential.withdrawal_key_path_of _) password)
    as [wsk|] eqn:Hwk; [|discriminate].
  destruct (mnemonic_and_path_to_key mnemonic
              (Credential.signing_key_path_of _) password)
    as [ssk|] eqn:Hsk; [|discriminate].
  eexists. intros tr. unfold bind, call.
  replace (start_index + Z.of_nat k - start_index)%Z with (Z.of_nat k) by lia.
  rewrite (py_index_in_range _ _ _ Ha), init_run, Hwk, Hsk. reflexivity.
Qed.

Lemma batch_element_fails mnemonic password amounts fv start_index k a e :
  amounts !! k = Some a ->
  mnemonic_and_path_to_key mnemonic
    (Credential.withdrawal_key_path_of (start_index + Z.of_nat k)) password
  = Raise e
  \/ (is_ok (mnemonic_and_path_to_key mnemonic
               (Credential.withdrawal_key_path_of (start_index + Z.of_nat k))
               password) = true
      /\ mnemonic_and_path_to_key mnemonic
           (Credential.signing_key_path_of (start_index + Z.of_nat k)) password
         = Raise e) ->
  forall tr,
    bind (call (py_index amounts (start_index + Z.of_nat k - start_index)))
         (fun amount => Credential.init mnemonic password
                          (start_index + Z.of_nat k) amount fv) tr
    = (Raise e,
       tr ++ (if is_ok (mnemonic_and_path_to_key mnemonic
                          (Credential.withdrawal_key_path_of
                             (start_index + Z.of_nat k)) password)
              then derivations_of mnemonic password (start_index + Z.of_nat k)
              else [KeyDerivationCall mnemonic
                      (Credential.withdrawal_key_path_of
                         (start_index + Z.of_nat k)) password])).
Proof.
  intros Ha Hfail tr. unfold bind, call.
  replace (start_index + Z.of_nat k - start_index)%Z with (Z.of_nat k) by lia.
  rewrite (py_index_in_range _ _ _ Ha), init_run.
  destruct Hfail as [Hw|[Hw Hs]].
  - rewrite Hw. reflexivity.
  - destruct (mnemonic_and_path_to_key mnemonic
                (Credential.withdrawal_key_path_of _) password);
      [|discriminate].
    rewrite Hs. reflexivity.
Qed.

(** X2: [from_mnemonic] is fail-fast.  When the key derivation accepts the
    paths of the first [j] indices and rejects a path of index
    start_index+j with exception [e], the call raises [e]; the trace holds
    the derivations of the first [j] indices in ascending order, then the
    withdrawal derivation of the failing index (and its signing derivation
    if that is the one that failed), and nothing for any later index. *)
Theorem from_mnemonic_stops_at_first_failure (mnemonic password : string)
    (amounts : list Z) (fv : bytes) (start_index : Z) (tr : Trace)
    (j : nat) (e : exn) :
  j < length amounts ->
  (forall k, k < j ->
     is_ok (mnemonic_and_path_to_key mnemonic
              (Credential.withdrawal_key_path_of (start_index + Z.of_nat k))
              password) = true
     /\ is_ok (mnemonic_and_path_to_key mnemonic
                 (Credential.signing_key_path_of (start_index + Z.of_nat k))
                 password) = true) ->
  mnemonic_and_path_to_key mnemonic
    (Credential.withdrawal_key_path_of (start_index + Z.of_nat j)) password
  = Raise e
  \/ (is_ok (mnemonic_and_path_to_key mnemonic
               (Credential.withdrawal_key_path_of (start_index + Z.of_nat j))
               password) = true
      /\ mnemonic_and_path_to_key mnemonic
           (Credential.signing_key_path_of (start_index + Z.of_nat j)) password
         = Raise e) ->
  CredentialList.from_mnemonic mnemonic password (Z.of_nat (length amounts))
    amounts fv start_index tr
  = (Raise e,
     tr ++ concat (map (fun k => derivations_of mnemonic password
                                   (start_index + Z.of_nat k)) (seq 0 j))
        ++ (if is_ok (mnemonic_and_path_to_key mnemonic
                        (Credential.withdrawal_key_path_of
                           (start_index + Z.of_nat j)) password)
            then derivations_of mnemonic password (start_index + Z.of_nat j)
            else [KeyDerivationCall mnemonic
                    (Credential.withdrawal_key_path_of
                       (start_index + Z.of_nat j)) password])).
Proof.
  intros Hj Hbefore Hfail.
  set (f := fun index =>
              bind (call (py_index amounts (index - start_index)))
                   (fun amount => Credential.init mnemonic password index
                                    amount fv)).
  assert (Hall : Forall
            (fun k => exists c, forall tr',
               f (start_index + Z.of_nat k)%Z tr'
               = (Ok c, tr' ++ derivations_of mnemonic password
                                 (start_index + Z.of_nat k)))
            (seq 0 j)).
  { apply Forall_forall. intros k Hk. apply elem_of_seq in Hk.
    destruct (Hbefore k) as [Hw Hs]; [lia|].
    destruct (lookup_lt_is_Some_2 amounts k) as [a Ha]; [lia|].
    apply (batch_element_ok _ _ _ _ _ _ _ Ha Hw Hs). }
  destruct (Forall2_choose _ _ Hall) as [cs Hcs].
  destruct (lookup_lt_is_Some_2 amounts j Hj) as [a Ha].
  unfold CredentialList.from_mnemonic.
  rewrite Z.eqb_refl. simpl. unfold py_range.
  replace (start_index + Z.of_nat (length amounts) - start_index)%Z
    with (Z.of_nat (length amounts)) by lia.
  rewrite Nat2Z.id. fold f.
  replace (length amounts) with (j + S (length amounts - S j)) by lia.
  rewrite seq_app, map_app. simpl.
  unfold bind at 1.
  erewrite (comprehension_stops f
              (fun index => derivations_of mnemonic password index)
              _ cs).
  - by rewrite map_map.
  - apply Forall2_fmap_l. exact Hcs.
  - intros tr'. apply (batch_element_fails _ _ _ _ _ _ _ _ Ha Hfail).
Qed.

(** X3: the credentials of a batch built by [from_mnemonic] have pairwise
    different signing key paths. *)
Theorem from_mnemonic_paths_distinct (mnemonic password : string)
    (amounts : list Z) (fv : bytes) (start_index : Z) (tr : Trace) :
  (forall k, k < length amounts ->
     is_ok (mnemonic_and_path_to_key mnemonic
              (Credential.withdrawal_key_path_of (start_index + Z.of_nat k))
              password) = true
     /\ is_ok (mnemonic_and_path_to_key mnemonic
                 (Credential.signing_key_path_of (start_index + Z.of_nat k))
                 password) = true) ->
  exists creds,
    value (CredentialList.from_mnemonic mnemonic password
             (Z.of_nat (length amounts)) amounts fv start_index) tr
    = Ok {| CredentialList.credentials := creds |}
    /\ NoDup (map Credential.signing_key_path creds).
Proof.
  intros Hkeys.
  destruct (from_mnemonic_run mnemonic password amounts fv start_index tr
              Hkeys) as (creds & Hrun & Hlen & Hat).
  exists creds. split; [unfold value; by rewrite Hrun|].
  apply NoDup_alt. intros i j p Hi Hj.
  rewrite list_lookup_fmap in Hi, Hj.
  destruct (creds !! i) as [ci|] eqn:Hci; [|discriminate].
  destruct (creds !! j) as [cj|] eqn:Hcj; [|discriminate].
  simpl in Hi, Hj.
  destruct (lookup_lt_is_Some_2 amounts i) as [ai Hai].
  { rewrite <- Hlen. by eapply lookup_lt_Some. }
  destruct (lookup_lt_is_Some_2 amounts j) as [aj Haj].
  { rewrite <- Hlen. by eapply lookup_lt_Some. }
  destruct (Hat i ai Hai) as (ci' & Hci' & _ & _ & Hpi & _).
  destruct (Hat j aj Haj) as (cj' & Hcj' & _ & _ & Hpj & _).
  assert (ci' = ci) by congruence. assert (cj' = cj) by congruence.
  subst ci' cj'.
  assert (Heq : Credential.signing_key_path_of (start_index + Z.of_nat i)
                = Credential.signing_key_path_of (start_index + Z.of_nat j))
    by congruence.
  apply signing_key_path_inj in Heq. lia.
Qed.
End BatchFacts.

(** ** Keystores of a credential *)

Lemma byte_of_Z_value (n : Z) :
  Z.of_N (Byte.to_N (byte_of_Z n)) = (n mod 256)%Z.
Proof.
  unfold byte_of_Z.
  pose proof (Z.mod_pos_bound n 256 ltac:(lia)) as Hm.
  destruct (Byte.of_N (Z.to_N (n mod 256))) as [b|] eqn:Hb.
  - apply Byte.to_of_N in Hb. rewrite Hb. lia.
  - apply Byte.of_N_None_iff in Hb. lia.
Qed.

(** Reading back the big-endian digits of an integer that fits. *)
Lemma int_from_bytes_big_digits (len : nat) (n : Z) :
  (0 <= n < 256 ^ Z.of_nat len)%Z ->
  int_from_bytes_big (big_endian_digits len n) = n.
Proof.
  revert n. induction len as [|len IH]; intros n Hn.
  - simpl in *. unfold int_from_bytes_big. simpl. lia.
  - simpl big_endian_digits.
    rewrite int_from_bytes_big_snoc, byte_of_Z_value.
    rewrite Nat2Z.inj_succ, Z.pow_succ_r in Hn by lia.
    rewrite IH.
    + pose proof (Z.div_mod n 256 ltac:(lia)). lia.
    + split.
      * apply Z.div_pos; lia.
      * apply Z.div_lt_upper_bound; lia.
Qed.

Section KeystoreFacts.
Context `{E : Externals}.

Lemma signing_keystore_read_only password fresh :
  read_only (Credential.signing_keystore password fresh).
Proof. unfold Credential.signing_keystore. auto 8 with frame. Qed.

(** X4: [signing_keystore] returns a keystore exactly when signing_sk fits
    32 unsigned bytes and raises [OverflowError] otherwise; the keystore is
    the encryption, under the given password and tagged with
    signing_key_path, of 32 bytes whose big-endian value is signing_sk; the
    credential is left as it was. *)
Theorem signing_keystore_secret (c : Credential.t) (password : string)
    (fresh : bytes) :
  (is_ok (value (Credential.signing_keystore password fresh) c) = true
   <-> (0 <= Credential.signing_sk c < 2 ^ 256)%Z)
  /\ (forall e, value (Credential.signing_keystore password fresh) c = Raise e
                <-> e = OverflowError
                    /\ ~ (0 <= Credential.signing_sk c < 2 ^ 256)%Z)
  /\ (forall ks,
        value (Credential.signing_keystore password fresh) c = Ok ks
        <-> (0 <= Credential.signing_sk c < 2 ^ 256)%Z
            /\ exists secret,
                 ks = ScryptKeystore_encrypt secret password
                        (Credential.signing_key_path c) fresh
                 /\ length secret = 32
                 /\ int_from_bytes_big secret = Credential.signing_sk c
                 /\ int_to_bytes_big 32 (Credential.signing_sk c) = Ok secret)
  /\ state_after (Credential.signing_keystore password fresh) c = c.
Proof.
  assert (Hrange : (0 <=? Credential.signing_sk c)%Z
                   && (Credential.signing_sk c <? 256 ^ Z.of_nat 32)%Z = true
                   <-> (0 <= Credential.signing_sk c < 2 ^ 256)%Z).
  { rewrite andb_true_iff, Z.leb_le, Z.ltb_lt.
    change (256 ^ Z.of_nat 32)%Z with (2 ^ 256)%Z. tauto. }
  rewrite signing_keystore_value. unfold int_to_bytes_big.
  destruct ((0 <=? Credential.signing_sk c)%Z
            && (Credential.signing_sk c <? 256 ^ Z.of_nat 32)%Z) eqn:Hb.
  - pose proof (proj1 Hrange eq_refl) as Hin.
    split; [simpl; tauto|]. split; [|split].
    + intros e. split; [discriminate | tauto].
    + intros ks. split.
      * intros [= <-]. split; [done|].
        exists (big_endian_digits 32 (Credential.signing_sk c)).
        split; [done|]. split; [apply length_big_endian_digits|].
        split; [|done].
        apply int_from_bytes_big_digits.
        change (256 ^ Z.of_nat 32)%Z with (2 ^ 256)%Z. done.
      * intros (_ & secret & -> & _ & _ & [= <-]). done.
    + apply signing_keystore_read_only.
  - assert (Hout : ~ (0 <= Credential.signing_sk c < 2 ^ 256)%Z).
    { intros Hin. apply Hrange in Hin. congruence. }
    split; [simpl; split; [discriminate | tauto]|]. split; [|split].
    + intros e. split; [intros [= <-]; done | intros [-> _]; done].
    + intros ks. split; [discriminate | tauto].
    + apply signing_keystore_read_only.
Qed.

(** X5: a credential's keystore verifies under its password.  For a codec
    that decrypts what it encrypted when given the same password: if the
    file holds the keystore [signing_keystore] made for credential [c], then
    [verify_keystore] under that password answers, for any credential [c'],
    whether signing_sk of [c'] equals that of [c]; in particular true for
    [c] itself. *)
Theorem signing_keystore_verifies (c c' : Credential.t) (password : string)
    (fresh : bytes) (file : string) (ks : Keystore) :
  (forall secret pw path rnd,
     Keystore_decrypt (ScryptKeystore_encrypt secret pw path rnd) pw
     = Ok secret) ->
  value (Credential.signing_keystore password fresh) c = Ok ks ->
  Keystore_from_file file = Ok ks ->
  value (Credential.verify_keystore file password) c'
  = Ok (Credential.signing_sk c' =? Credential.signing_sk c)%Z
  /\ value (Credential.verify_keystore file password) c = Ok true.
Proof.
  intros Hcodec Hks Hfile.
  rewrite signing_keystore_value in Hks. unfold int_to_bytes_big in Hks.
  destruct ((0 <=? Credential.signing_sk c)%Z
            && (Credential.signing_sk c <? 256 ^ Z.of_nat 32)%Z) eqn:Hb;
    [|discriminate].
  apply andb_true_iff in Hb as [Hlo Hhi].
  apply Z.leb_le in Hlo. apply Z.ltb_lt in Hhi.
  assert (Hk : ks = ScryptKeystore_encrypt
                      (big_endian_digits 32 (Credential.signing_sk c)) password
                      (Credential.signing_key_path c) fresh) by congruence.
  rewrite !verify_keystore_value, Hfile, Hk, Hcodec.
  rewrite int_from_bytes_big_digits by lia.
  split; [done|]. by rewrite Z.eqb_refl.
Qed.

(** X6: [verify_keystores] stops at the first pair that does not verify.
    If every pair before position [k] is true and pair [k] answers [r],
    false or an exception, the batch answers [r], whatever the later pairs
    would do. *)
Theorem verify_keystores_first_failure (creds : list Credential.t)
    (files : list string) (password : string) (k : nat) (c : Credential.t)
    (f : string) (r : result bool) :
  (forall i ci fi, i < k -> creds !! i = Some ci -> files !! i = Some fi ->
     value (Credential.verify_keystore fi password) ci = Ok true) ->
  creds !! k = Some c ->
  files !! k = Some f ->
  value (Credential.verify_keystore f password) c = r ->
  r <> Ok true ->
  value (CredentialList.verify_keystores files password)
    {| CredentialList.credentials := creds |} = r.
Proof.
  intros Hbefore Hc Hf Hr Hne.
  rewrite verify_keystores_value. simpl.
  assert (Hk : py_zip creds files !! k = Some (c, f))
    by (by apply py_zip_lookup).
  rewrite <- (take_drop_middle _ _ _ Hk), map_app. simpl.
  unfold CredentialList.verify_pair at 2. simpl. rewrite Hr.
  apply py_all_first_not_true; [|done].
  rewrite Forall_fmap, Forall_lookup. intros i [ci fi] Hi.
  pose proof (lookup_lt_Some _ _ _ Hi) as Hlt.
  rewrite length_take in Hlt.
  rewrite lookup_take_lt in Hi by lia.
  apply py_zip_lookup in Hi as [Hci Hfi].
  apply (Hbefore i ci fi); [lia|done..].
Qed.
End KeystoreFacts.

(** ** Deposits *)

Section DepositFacts.
Context `{E : Externals}.

(** X7: no deposit is produced for an amount out of bounds.  Whatever the
    override, [generate_signed_deposit] and [generate_deposit_datum_dict]
    return a value only when the amount lies within
    [MIN_DEPOSIT_AMOUNT, MAX_DEPOSIT_AMOUNT]; out of bounds they raise the
    error of the domain computation when that fails (it comes first),
    otherwise [OverflowError] when amount / ETH2GWEI is too large for a
    float and [ValidationError] when it is not, as it is for every amount
    of at most 64 bits. *)
Theorem no_deposit_out_of_bounds (c : Credential.t) (ov : option bytes) :
  (is_ok (value (Credential.generate_signed_deposit ov) c) = true ->
   (MIN_DEPOSIT_AMOUNT <= Credential.amount c <= MAX_DEPOSIT_AMOUNT)%Z)
  /\ (is_ok (value (Credential.generate_deposit_datum_dict ov) c) = true ->
      (MIN_DEPOSIT_AMOUNT <= Credential.amount c <= MAX_DEPOSIT_AMOUNT)%Z)
  /\ (~ (MIN_DEPOSIT_AMOUNT <= Credential.amount c <= MAX_DEPOSIT_AMOUNT)%Z ->
      value (Credential.generate_signed_deposit ov) c
      = match compute_deposit_domain (Credential.fork_version c) with
        | Raise e => Raise e
        | Ok _ =>
            Raise (if true_division_overflows (Credential.amount c) ETH2GWEI
                   then OverflowError else ValidationError)
        end
      /\ value (Credential.generate_deposit_datum_dict ov) c
         = match compute_deposit_domain (Credential.fork_version c) with
           | Raise e => Raise e
           | Ok _ =>
               Raise (if true_division_overflows (Credential.amount c)
                           ETH2GWEI
                      then OverflowError else ValidationError)
           end)
  /\ ((- 2 ^ 64 <= Credential.amount c <= 2 ^ 64)%Z ->
      true_division_overflows (Credential.amount c) ETH2GWEI = false).
Proof.
  assert (Hs : is_ok (value (Credential.generate_signed_deposit ov) c) = true ->
               (MIN_DEPOSIT_AMOUNT <= Credential.amount c
                <= MAX_DEPOSIT_AMOUNT)%Z).
  { rewrite generate_signed_deposit_value.
    destruct (compute_deposit_domain _); [|discriminate].
    destruct (in_bounds _) eqn:Hb; [|discriminate].
    intros _. by apply in_bounds_iff. }
  split; [exact Hs|]. split; [|split].
  - rewrite generate_deposit_datum_dict_value.
    destruct (value (Credential.generate_signed_deposit ov) c) eqn:Hv;
      [|discriminate].
    intros _. by apply Hs.
  - intros Hout.
    assert (Hb : in_bounds (Credential.amount c) = false).
    { destruct (in_bounds _) eqn:Hb; [|done].
      apply in_bounds_iff in Hb. contradiction. }
    rewrite generate_deposit_datum_dict_value, generate_signed_deposit_value,
      Hb.
    unfold out_of_bounds_error.
    destruct (compute_deposit_domain _); done.
  - intros Hsmall.
    pose proof (out_of_bounds_error_small _ Hsmall) as Herr.
    unfold out_of_bounds_error in Herr.
    destruct (true_division_overflows _ _); [discriminate | reflexivity].
Qed.

(** X8: a deposit datum dictionary has exactly eight keys: the four fields
    of [DepositData] and deposit_message_root, deposit_data_root,
    fork_version and deposit_cli_version. *)
Theorem deposit_datum_dict_keys (c : Credential.t) (ov : option bytes)
    (d : gmap string pyval) :
  value (Credential.generate_deposit_datum_dict ov) c = Ok d ->
  dom d = ({["pubkey"; "withdrawal_credentials"; "amount"; "signature";
             "deposit_message_root"; "deposit_data_root"; "fork_version";
             "deposit_cli_version"]} : gset string)
  /\ size d = 8.
Proof.
  rewrite generate_deposit_datum_dict_value.
  destruct (value (Credential.generate_signed_deposit ov) c) as [signed|];
    [|discriminate].
  destruct (hash_tree_root_message _) as [dm_root|]; [|discriminate].
  destruct (hash_tree_root_data _) as [dd_root|]; [|discriminate].
  intros [= <-].
  assert (Hdom : dom (<["deposit_cli_version" := VStr DEPOSIT_CLI_VERSION]>
                        (<["fork_version" := VBytes (Credential.fork_version c)]>
                          (<["deposit_data_root" := VBytes dd_root]>
                            (<["deposit_message_root" := VBytes dm_root]>
                              (DepositData.as_dict signed)))))
                 = ({["pubkey"; "withdrawal_credentials"; "amount";
                      "signature"; "deposit_message_root";
                      "deposit_data_root"; "fork_version";
                      "deposit_cli_version"]} : gset string)).
  { unfold DepositData.as_dict. rewrite !dom_insert_L, dom_empty_L.
    set_solver. }
  split; [exact Hdom|].
  rewrite <- size_dom, Hdom. reflexivity.
Qed.

(** X9: an override equal to the credential's own withdrawal credentials
    changes nothing: the signed deposit and the datum dictionary are those
    of the call without override. *)
Theorem override_with_derived_credentials (c : Credential.t) :
  value (Credential.generate_signed_deposit
           (Some (BLS_WITHDRAWAL_PREFIX
                    ++ drop 1 (SHA256 (SkToPk (Credential.withdrawal_sk c))))))
    c
  = value (Credential.generate_signed_deposit None) c
  /\ value (Credential.generate_deposit_datum_dict
              (Some (BLS_WITHDRAWAL_PREFIX
                       ++ drop 1 (SHA256 (SkToPk (Credential.withdrawal_sk c))))))
       c
     = value (Credential.generate_deposit_datum_dict None) c.
Proof.
  assert (Hs : value (Credential.generate_signed_deposit
                        (Some (derived_withdrawal_credentials c))) c
               = value (Credential.generate_signed_deposit None) c)
    by (rewrite !generate_signed_deposit_value; reflexivity).
  change (BLS_WITHDRAWAL_PREFIX
            ++ drop 1 (SHA256 (SkToPk (Credential.withdrawal_sk c))))
    with (derived_withdrawal_credentials c).
  split; [exact Hs|].
  rewrite !generate_deposit_datum_dict_value.
  unfold bytes in *. by rewrite Hs.
Qed.

(** X10: without an override the two roots of the dictionary belong to what
    was signed: deposit_message_root is the hash-tree-root of the message
    made of the returned pubkey, withdrawal_credentials and amount, and
    deposit_data_root the hash-tree-root of the returned [DepositData]. *)
Theorem deposit_datum_roots_without_override (c : Credential.t)
    (d : gmap string pyval) :
  value (Credential.generate_deposit_datum_dict None) c = Ok d ->
  exists signed message_root data_root,
    value (Credential.generate_signed_deposit None) c = Ok signed
    /\ d !! "pubkey" = Some (VBytes (DepositData.pubkey signed))
    /\ d !! "withdrawal_credentials"
       = Some (VBytes (DepositData.withdrawal_credentials signed))
    /\ d !! "amount" = Some (VInt (DepositData.amount signed))
    /\ d !! "signature" = Some (VBytes (DepositData.signature signed))
    /\ hash_tree_root_message
         {| DepositMessage.pubkey := DepositData.pubkey signed;
            DepositMessage.withdrawal_credentials :=
              DepositData.withdrawal_credentials signed;
            DepositMessage.amount := DepositData.amount signed |}
       = Ok message_root
    /\ d !! "deposit_message_root" = Some (VBytes message_root)
    /\ hash_tree_root_data signed = Ok data_root
    /\ d !! "deposit_data_root" = Some (VBytes data_root).
Proof.
  intros Hd.
  destruct (generate_deposit_datum_dict_entries c None d Hd)
    as (signed & dm_root & dd_root & Hs & Hm & Hdd & Hpk & Hwc & Ha & Hsig
        & Hmr & Hdr & _).
  exists signed, dm_root, dd_root.
  repeat split; try done.
  rewrite generate_signed_deposit_value in Hs.
  destruct (compute_deposit_domain _); [|discriminate].
  destruct (in_bounds _); [|discriminate].
  destruct (compute_signing_root _ _); [|discriminate].
  injection Hs as <-. exact Hm.
Qed.
End DepositFacts.

(** ** File names *)

Lemma lacks_nil x : lacks x "".
Proof. constructor. Qed.

Lemma lacks_cons x ch s : ch <> x -> lacks x s -> lacks x (String ch s).
Proof. intros Hch Hs. unfold lacks. simpl. by constructor. Qed.

Lemma lacks_app x (a b : string) : lacks x a -> lacks x b -> lacks x (a +:+ b).
Proof.
  unfold lacks. induction a as [|ch a IH]; intros Ha Hb; [done|].
  rewrite append_String. simpl in *.
  inversion Ha; subst. constructor; auto.
Qed.

Lemma pretty_N_char_digit (n : N) : Ascii.is_nat (pretty_N_char n) <> None.
Proof. unfold pretty_N_char. by repeat case_match. Qed.

Lemma pretty_N_go_lacks x (n : N) (s : string) :
  Ascii.is_nat x = None -> lacks x s -> lacks x (pretty_N_go n s).
Proof.
  intros Hx. revert s. induction (N.lt_wf_0 n) as [n _ IH]. intros s Hs.
  destruct (decide (n = 0)%N) as [->|Hn].
  - by rewrite pretty_N_go_0.
  - rewrite pretty_N_go_step by lia.
    apply IH.
    + apply N.div_lt; lia.
    + apply lacks_cons; [|done].
      intros Heq. apply (pretty_N_char_digit (n `mod` 10)%N).
      by rewrite Heq.
Qed.

(** [str] of an integer holds decimal digits and at most a minus sign. *)
Lemma pretty_Z_lacks x (z : Z) :
  Ascii.is_nat x = None -> x <> "-"%char -> lacks x (pretty z).
Proof.
  intros Hx Hm.
  assert (HN : forall n : N, lacks x (pretty n)).
  { intros n. unfold pretty, pretty_N. case_decide.
    - apply lacks_cons; [|apply lacks_nil]. by intros <-.
    - apply pretty_N_go_lacks; [done | apply lacks_nil]. }
  unfold pretty, pretty_Z. destruct z as [|p|p].
  - apply lacks_cons; [|apply lacks_nil]. by intros <-.
  - apply (HN (N.pos p)).
  - apply lacks_app; [|apply (HN (N.pos p))].
    apply lacks_cons; [congruence | apply lacks_nil].
Qed.

(** Two strings split at the first occurrence of a character. *)
Lemma split_at_first x (s1 s2 r1 r2 : string) :
  lacks x s1 -> lacks x s2 ->
  s1 +:+ String x r1 = s2 +:+ String x r2 ->
  s1 = s2 /\ r1 = r2.
Proof.
  unfold lacks. revert s2.
  induction s1 as [|c1 s1 IH]; intros [|c2 s2] H1 H2 Heq;
    rewrite ?append_String in Heq; simpl in *.
  - by injection Heq as ->.
  - injection Heq as <- _. inversion H2; subst. done.
  - injection Heq as -> _. inversion H1; subst. done.
  - injection Heq as -> Heq. inversion H1; inversion H2; subst.
    destruct (IH s2) as [-> ->]; done.
Qed.

Lemma replace_slash_app (a b : string) :
  replace_slash (a +:+ b) = replace_slash a +:+ replace_slash b.
Proof.
  induction a as [|ch a IH]; [done|].
  rewrite append_String. simpl. by rewrite IH, append_String.
Qed.

Lemma replace_slash_id (s : string) : no_slash s -> replace_slash s = s.
Proof.
  unfold no_slash. induction s as [|ch s IH]; intros Hs; [done|].
  simpl in *. inversion Hs as [|? ? Hch Hs']; subst.
  destruct (Ascii.eqb_spec ch "/"); [done|]. by rewrite IH.
Qed.

Lemma replace_slash_lacks (s : string) : lacks "/" (replace_slash s).
Proof.
  induction s as [|ch s IH]; [apply lacks_nil|].
  simpl. apply lacks_cons; [|done].
  destruct (Ascii.eqb_spec ch "/"); [discriminate | done].
Qed.

Lemma replace_slash_signing_path (index : Z) :
  replace_slash (Credential.signing_key_path_of index)
  = "m_12381_3600_" +:+ pretty index +:+ "_0_0".
Proof.
  unfold Credential.signing_key_path_of.
  change (Credential.withdrawal_key_path_of index)
    with ("m/12381/3600/" +:+ pretty index +:+ "/0").
  rewrite !replace_slash_app.
  rewrite (replace_slash_id (pretty index)) by apply pretty_Z_no_slash.
  change (replace_slash "m/12381/3600/") with "m_12381_3600_".
  change (replace_slash "/0") with "_0".
  rewrite !string_app_assoc. reflexivity.
Qed.

Lemma path_join_relative (folder name : string) :
  starts_with_slash name = false ->
  path_join folder name = folder_prefix folder +:+ name.
Proof.
  intros Hrel. unfold path_join, folder_prefix. rewrite Hrel.
  destruct (String.eqb folder "" || ends_with_slash folder); [done|].
  by rewrite string_app_assoc.
Qed.

Lemma keystore_path_joined (folder path : string) (now : Z) :
  path_join folder (keystore_file_name path now)
  = folder_prefix folder +:+ keystore_file_name path now.
Proof. by apply path_join_relative. Qed.

Lemma keystore_file_name_signing (k s : Z) :
  keystore_file_name (Credential.signing_key_path_of k) s
  = "keystore-m_12381_3600_" +:+ pretty k +:+ "_0_0-" +:+ pretty s +:+ ".json".
Proof.
  unfold keystore_file_name.
  rewrite replace_slash_signing_path, !string_app_assoc. reflexivity.
Qed.

Lemma keystore_file_path_inj (folder : string) (i j t t' : Z) :
  path_join folder (keystore_file_name (Credential.signing_key_path_of i) t)
  = path_join folder (keystore_file_name (Credential.signing_key_path_of j) t')
  -> i = j /\ t = t'.
Proof.
  rewrite !keystore_path_joined, !keystore_file_name_signing. intros Heq.
  apply (inj (String.app _)) in Heq.
  apply (inj (String.app "keystore-m_12381_3600_")) in Heq.
  change ("_0_0-" +:+ pretty t +:+ ".json")
    with (String "_" ("0_0-" +:+ pretty t +:+ ".json")) in Heq.
  change ("_0_0-" +:+ pretty t' +:+ ".json")
    with (String "_" ("0_0-" +:+ pretty t' +:+ ".json")) in Heq.
  apply split_at_first in Heq as [Hi Ht];
    [|by apply pretty_Z_lacks..].
  apply (inj (String.app "0_0-")) in Ht.
  change ".json" with (String "." "json") in Ht.
  apply split_at_first in Ht as [Ht _];
    [|by apply pretty_Z_lacks..].
  split; by apply (inj pretty).
Qed.

(** X11: the file of a keystore is named after the validator and the second.
    In a given folder, the paths [save_signing_keystore] forms for the
    signing paths of indices [i] and [j] at clock readings [t] and [t'] are
    equal only if [i = j] and [t = t']; the name itself is
    keystore-m_12381_3600_i_0_0-t.json and holds no separator. *)
Theorem keystore_file_names_separate (folder : string) (i j t t' : Z) :
  (path_join folder
     (keystore_file_name (Credential.signing_key_path_of i) t)
   = path_join folder
       (keystore_file_name (Credential.signing_key_path_of j) t')
   <-> i = j /\ t = t')
  /\ keystore_file_name (Credential.signing_key_path_of i) t
     = "keystore-m_12381_3600_" +:+ pretty i +:+ "_0_0-" +:+ pretty t
       +:+ ".json"
  /\ lacks "/" (keystore_file_name (Credential.signing_key_path_of i) t)
  /\ path_join folder
       (keystore_file_name (Credential.signing_key_path_of i) t)
     = folder_prefix folder
       +:+ keystore_file_name (Credential.signing_key_path_of i) t.
Proof.
  split; [|split; [apply keystore_file_name_signing
                  |split; [|apply keystore_path_joined]]].
  - split; [apply keystore_file_path_inj | by intros [-> ->]].
  - unfold keystore_file_name.
    repeat apply lacks_app;
      try apply replace_slash_lacks;
      try (apply pretty_Z_lacks; done);
      unfold lacks; simpl; repeat constructor; discriminate.
Qed.

(** ** Saving and exporting keystores *)

Section FileFacts.
Context `{E : Externals} {Env : @Environment E}.

Lemma int_to_bytes_big_32 (n : Z) :
  int_to_bytes_big 32 n
  = if decide (0 <= n < 2 ^ 256)%Z then Ok (big_endian_digits 32 n)
    else Raise OverflowError.
Proof.
  unfold int_to_bytes_big.
  change (256 ^ Z.of_nat 32)%Z with (2 ^ 256)%Z.
  destruct (Z.leb_spec 0 n), (Z.ltb_spec n (2 ^ 256)); simpl;
    case_decide; try done; lia.
Qed.

Lemma save_signing_keystore_run c password folder (w : World) :
  save_signing_keystore c password folder w =
    if decide (fits_32_bytes c) then
      if can_open_for_writing
           (keystore_path_at c password folder (encryptions w) (clock_reads w))
      then
        (Ok (keystore_path_at c password folder (encryptions w)
               (clock_reads w)),
         mkWorld (S (clock_reads w)) (S (encryptions w))
           (<[keystore_path_at c password folder (encryptions w)
                (clock_reads w)
              := KeystoreFile (keystore_at c password (encryptions w))]>
              (files w)))
      else
        (Raise (CollaboratorError "open"),
         mkWorld (S (clock_reads w)) (S (encryptions w)) (files w))
    else (Raise OverflowError, w).
Proof.
  unfold save_signing_keystore, bind, encrypting.
  rewrite signing_keystore_value, int_to_bytes_big_32.
  unfold fits_32_bytes. case_decide; [|done].
  unfold time_now, write_file, ret. simpl.
  fold (keystore_at c password (encryptions w)).
  fold (keystore_path_at c password folder (encryptions w) (clock_reads w)).
  destruct (can_open_for_writing _); done.
Qed.

Lemma export_paths_length creds password folder n m :
  length (export_paths creds password folder n m) = length creds.
Proof.
  revert n m. induction creds as [|c creds IH]; intros n m; simpl; [done|].
  by rewrite IH.
Qed.

Lemma export_paths_lookup creds password folder n m k c :
  creds !! k = Some c ->
  export_paths creds password folder n m !! k
  = Some (keystore_path_at c password folder (n + k) (m + k)).
Proof.
  revert n m k. induction creds as [|c0 creds IH]; intros n m [|k] Hk;
    simpl in *; try done.
  - injection Hk as ->. by rewrite !Nat.add_0_r.
  - rewrite (IH (S n) (S m) k Hk).
    replace (S n + k) with (n + S k) by lia.
    replace (S m + k) with (m + S k) by lia. done.
Qed.

Lemma export_keystores_cons c creds password folder (w : World) :
  export_keystores {| CredentialList.credentials := c :: creds |}
    password folder w
  = match save_signing_keystore c password folder w with
    | (Ok p, w1) =>
        match export_keystores {| CredentialList.credentials := creds |}
                password folder w1 with
        | (Ok ps, w2) => (Ok (p :: ps), w2)
        | (Raise e, w2) => (Raise e, w2)
        end
    | (Raise e, w1) => (Raise e, w1)
    end.
Proof.
  unfold export_keystores. simpl. unfold bind.
  destruct (save_signing_keystore c password folder w) as [[p|e] w1]; [|done].
  destruct (comprehension _ creds w1) as [[ps|e] w2]; done.
Qed.

(** What a successful export has done. *)
Lemma export_keystores_ok creds password folder (w w' : World) names :
  export_keystores {| CredentialList.credentials := creds |}
    password folder w = (Ok names, w') ->
  names = export_paths creds password folder (encryptions w) (clock_reads w)
  /\ clock_reads w' = clock_reads w + length creds
  /\ encryptions w' = encryptions w + length creds
  /\ Forall fits_32_bytes creds
  /\ Forall (fun p => can_open_for_writing p = true) names
  /\ (forall p, p ∉ names -> files w' !! p = files w !! p)
  /\ (forall k c,
        creds !! k = Some c ->
        (forall j, k < j ->
           names !! j
           <> Some (keystore_path_at c password folder (encryptions w + k)
                      (clock_reads w + k))) ->
        files w' !! keystore_path_at c password folder (encryptions w + k)
                      (clock_reads w + k)
        = Some (KeystoreFile (keystore_at c password (encryptions w + k)))).
Proof.
  revert w names. induction creds as [|c creds IH]; intros w names Hrun.
  - injection Hrun as <- <-. simpl.
    rewrite !Nat.add_0_r. repeat split; try done; try constructor.
  - rewrite export_keystores_cons, save_signing_keystore_run in Hrun.
    destruct (decide (fits_32_bytes c)) as [Hfit|]; [|discriminate].
    destruct (can_open_for_writing _) eqn:Hopen; [|discriminate].
    destruct (export_keystores _ password folder _) as [[ps|e] w2] eqn:Hrest;
      [|discriminate].
    injection Hrun as <- <-.
    destruct (IH _ _ Hrest) as (Hps & Hclock & Henc & Hfits & Hopens & Hother
                                & Hfiles).
    simpl in Hps, Hclock, Henc, Hother, Hfiles.
    split; [simpl; by rewrite Hps|].
    split; [simpl; lia|]. split; [simpl; lia|].
    split; [by constructor|]. split; [by constructor|].
    split.
    + intros p Hp. apply not_elem_of_cons in Hp as [Hne Hp].
      rewrite (Hother p Hp). by rewrite lookup_insert_ne.
    + intros [|k] c' Hc' Hlater; simpl in Hc'.
      * injection Hc' as <-. rewrite !Nat.add_0_r in *.
        rewrite Hother.
        -- by rewrite lookup_insert_eq.
        -- intros Hin. apply list_elem_of_lookup in Hin as [j Hj].
           apply (Hlater (S j)); [lia | done].
      * replace (encryptions w + S k) with (S (encryptions w) + k) in * by lia.
        replace (clock_reads w + S k) with (S (clock_reads w) + k) in * by lia.
        apply Hfiles; [done|].
        intros j Hj. apply (Hlater (S j)). lia.
Qed.

Lemma export_keystores_succeeds creds password folder (w : World) :
  Forall fits_32_bytes creds ->
  Forall (fun p => can_open_for_writing p = true)
    (export_paths creds password folder (encryptions w) (clock_reads w)) ->
  exists w',
    export_keystores {| CredentialList.credentials := creds |}
      password folder w
    = (Ok (export_paths creds password folder (encryptions w) (clock_reads w)),
       w').
Proof.
  revert w. induction creds as [|c creds IH]; intros w Hfits Hopen.
  - by exists w.
  - inversion Hfits as [|? ? Hfit Hfits']; subst.
    simpl in Hopen. inversion Hopen as [|? ? Ho Hopen']; subst.
    rewrite export_keystores_cons, save_signing_keystore_run.
    destruct (decide (fits_32_bytes c)); [|contradiction].
    rewrite Ho.
    destruct (IH (mkWorld (S (clock_reads w)) (S (encryptions w))
                    (<[keystore_path_at c password folder (encryptions w)
                         (clock_reads w)
                       := KeystoreFile (keystore_at c password
                                          (encryptions w))]> (files w)))
                Hfits' Hopen') as [w' Hw'].
    simpl in Hw'. rewrite Hw'. by exists w'.
Qed.

(** In a comprehension, the failure of an element after a prefix that was
    built is the failure of the whole. *)
Lemma comprehension_prefix {S A B} (f : A -> M S B) (pre : list A) (x : A)
    (post : list A) (ys : list B) (s s1 s2 : S) (e : exn) :
  comprehension f pre s = (Ok ys, s1) ->
  f x s1 = (Raise e, s2) ->
  comprehension f (pre ++ x :: post) s = (Raise e, s2).
Proof.
  revert s ys. induction pre as [|a pre IH]; intros s ys Hpre Hx; simpl in *.
  - injection Hpre as <- <-. unfold bind. by rewrite Hx.
  - unfold bind in *.
    destruct (f a s) as [[y|e'] s'] eqn:Ha; [|discriminate].
    destruct (comprehension f pre s') as [[ys'|e'] s''] eqn:Hp;
      [|discriminate].
    injection Hpre as <- <-.
    by rewrite (IH _ _ Hp Hx).
Qed.

(** X12: [save_signing_keystore].  A signing key that does not fit 32 bytes
    raises [OverflowError] and leaves the world as it was, clock included;
    a path that cannot be opened raises after the clock was read and leaves
    the files as they were; otherwise the keystore of the credential is the
    content of the returned path and every other path is as before. *)
Theorem save_signing_keystore_effect (c : Credential.t)
    (password folder : string) (w : World) :
  (~ fits_32_bytes c ->
   save_signing_keystore c password folder w = (Raise OverflowError, w))
  /\ (fits_32_bytes c ->
      can_open_for_writing
        (keystore_path_at c password folder (encryptions w) (clock_reads w))
      = false ->
      value (save_signing_keystore c password folder) w
      = Raise (CollaboratorError "open")
      /\ files (state_after (save_signing_keystore c password folder) w)
         = files w
      /\ clock_reads (state_after (save_signing_keystore c password folder) w)
         = S (clock_reads w))
  /\ (fits_32_bytes c ->
      can_open_for_writing
        (keystore_path_at c password folder (encryptions w) (clock_reads w))
      = true ->
      value (save_signing_keystore c password folder) w
      = Ok (keystore_path_at c password folder (encryptions w) (clock_reads w))
      /\ files (state_after (save_signing_keystore c password folder) w)
           !! keystore_path_at c password folder (encryptions w)
                (clock_reads w)
         = Some (KeystoreFile (keystore_at c password (encryptions w)))
      /\ (forall p,
            p <> keystore_path_at c password folder (encryptions w)
                   (clock_reads w) ->
            files (state_after (save_signing_keystore c password folder) w)
              !! p
            = files w !! p)).
Proof.
  unfold value, state_after. rewrite save_signing_keystore_run.
  split; [|split].
  - intros Hno. by destruct (decide (fits_32_bytes c)).
  - intros Hfit Hopen. destruct (decide (fits_32_bytes c)); [|contradiction].
    by rewrite Hopen.
  - intros Hfit Hopen. destruct (decide (fits_32_bytes c)); [|contradiction].
    rewrite Hopen. simpl. split; [done|]. split.
    + by rewrite lookup_insert_eq.
    + intros p Hp. by rewrite lookup_insert_ne.
Qed.
Lemma keystore_path_at_law c password folder n m :
  (forall secret pw path rnd,
     Keystore_path (ScryptKeystore_encrypt secret pw path rnd) = path) ->
  keystore_path_at c password folder n m
  = path_join folder
      (keystore_file_name (Credential.signing_key_path c) (time_time m)).
Proof. intros Hlaw. unfold keystore_path_at, keystore_at. by rewrite Hlaw. Qed.

(** X13: [export_keystores] saves one keystore per credential, in list
    order.  When every signing key fits 32 bytes and every path can be
    opened, the call returns as many paths as credentials, the k-th being
    folder/keystore-<path of credential k, '/' as '_'>-<k-th clock
    reading>.json; no other path is touched; and when the returned paths are
    pairwise different each holds the keystore of its credential. *)
Theorem export_keystores_writes (creds : list Credential.t)
    (password folder : string) (w : World) :
  (forall secret pw path rnd,
     Keystore_path (ScryptKeystore_encrypt secret pw path rnd) = path) ->
  Forall fits_32_bytes creds ->
  (forall k c, creds !! k = Some c ->
     can_open_for_writing
       (path_join folder
          (keystore_file_name (Credential.signing_key_path c)
             (time_time (clock_reads w + k)))) = true) ->
  exists names w',
    export_keystores {| CredentialList.credentials := creds |}
      password folder w = (Ok names, w')
    /\ length names = length creds
    /\ (forall k c, creds !! k = Some c ->
          names !! k
          = Some (path_join folder
                    (keystore_file_name (Credential.signing_key_path c)
                       (time_time (clock_reads w + k)))))
    /\ (forall p, p ∉ names -> files w' !! p = files w !! p)
    /\ (NoDup names ->
        forall k c p, creds !! k = Some c -> names !! k = Some p ->
          files w' !! p
          = Some (KeystoreFile (keystore_at c password (encryptions w + k))))
    /\ clock_reads w' = clock_reads w + length creds.
Proof.
  intros Hlaw Hfits Hopen.
  assert (Hnames : forall k c, creds !! k = Some c ->
            export_paths creds password folder (encryptions w) (clock_reads w)
              !! k
            = Some (path_join folder
                      (keystore_file_name (Credential.signing_key_path c)
                         (time_time (clock_reads w + k))))).
  { intros k c Hc. rewrite (export_paths_lookup _ _ _ _ _ _ _ Hc).
    by rewrite keystore_path_at_law. }
  destruct (export_keystores_succeeds creds password folder w Hfits)
    as [w' Hrun].
  { apply Forall_lookup. intros k p Hp.
    destruct (lookup_lt_is_Some_2 creds k) as [c Hc].
    { rewrite <- (export_paths_length creds password folder (encryptions w)
                    (clock_reads w)).
      by eapply lookup_lt_Some. }
    rewrite (Hnames k c Hc) in Hp. injection Hp as <-. by apply Hopen. }
  destruct (export_keystores_ok _ _ _ _ _ _ Hrun)
    as (_ & Hclock & _ & _ & _ & Hother & Hfiles).
  eexists _, w'. split; [exact Hrun|].
  split; [apply export_paths_length|]. split; [exact Hnames|].
  split; [exact Hother|]. split; [|exact Hclock].
  intros Hnd k c p Hc Hp.
  rewrite (export_paths_lookup _ _ _ _ _ _ _ Hc) in Hp. injection Hp as <-.
  apply Hfiles; [done|].
  intros j Hj Hsame.
  pose proof (export_paths_lookup _ password folder (encryptions w)
                (clock_reads w) _ _ Hc) as Hk.
  pose proof (proj1 (NoDup_alt _) Hnd _ _ _ Hsame Hk). lia.
Qed.

(** X14: [export_keystores] aborts at the first credential that cannot be
    saved.  After a prefix of the list was exported, a credential whose
    signing key does not fit 32 bytes, or whose path cannot be opened, ends
    the call with its exception; the files are exactly those left by the
    prefix (they are not removed) and nothing is written for the
    credentials that follow. *)
Theorem export_keystores_aborts (pre post : list Credential.t)
    (c : Credential.t) (password folder : string) (w w1 : World)
    (names : list string) :
  export_keystores {| CredentialList.credentials := pre |}
    password folder w = (Ok names, w1) ->
  ~ fits_32_bytes c
  \/ can_open_for_writing
       (keystore_path_at c password folder (encryptions w1) (clock_reads w1))
     = false ->
  exists w2,
    export_keystores {| CredentialList.credentials := pre ++ c :: post |}
      password folder w
    = (Raise (if decide (fits_32_bytes c) then CollaboratorError "open"
              else OverflowError), w2)
    /\ files w2 = files w1.
Proof.
  intros Hpre Hfail.
  pose proof (save_signing_keystore_run c password folder w1) as Hsave.
  destruct (decide (fits_32_bytes c)) as [Hfit|Hno].
  - destruct Hfail as [?|Hopen]; [contradiction|].
    rewrite Hopen in Hsave.
    exists (mkWorld (S (clock_reads w1)) (S (encryptions w1)) (files w1)).
    split; [|reflexivity].
    unfold export_keystores in *. simpl in *.
    exact (comprehension_prefix
             (fun credential => save_signing_keystore credential password
                                  folder)
             pre c post names w w1 _ _ Hpre Hsave).
  - exists w1. split; [|done].
    unfold export_keystores in *. simpl in *.
    exact (comprehension_prefix
             (fun credential => save_signing_keystore credential password
                                  folder)
             pre c post names w w1 _ _ Hpre Hsave).
Qed.

Lemma verify_own_keystore c password n file :
  (forall secret pw path rnd,
     Keystore_decrypt (ScryptKeystore_encrypt secret pw path rnd) pw
     = Ok secret) ->
  fits_32_bytes c ->
  Keystore_from_file file = Ok (keystore_at c password n) ->
  value (Credential.verify_keystore file password) c = Ok true.
Proof.
  intros Hcodec Hfit Hfile.
  rewrite verify_keystore_value, Hfile. unfold keystore_at.
  rewrite Hcodec, int_from_bytes_big_digits.
  - by rewrite Z.eqb_refl.
  - unfold fits_32_bytes in Hfit.
    change (256 ^ Z.of_nat 32)%Z with (2 ^ 256)%Z. done.
Qed.

(** X15: export, then verify.  For a codec that decrypts what it encrypted
    under the same password: when [export_keystores] has returned pairwise
    different paths and the keystore files are read back as they were
    written, [verify_keystores] on the returned paths and the export
    password is true. *)
Theorem export_then_verify (creds : list Credential.t)
    (password folder : string) (w w' : World) (names : list string) :
  (forall secret pw path rnd,
     Keystore_decrypt (ScryptKeystore_encrypt secret pw path rnd) pw
     = Ok secret) ->
  export_keystores {| CredentialList.credentials := creds |}
    password folder w = (Ok names, w') ->
  NoDup names ->
  (forall p k, files w' !! p = Some (KeystoreFile k) ->
     Keystore_from_file p = Ok k) ->
  value (CredentialList.verify_keystores names password)
    {| CredentialList.credentials := creds |} = Ok true.
Proof.
  intros Hcodec Hrun Hnd Hread.
  destruct (export_keystores_ok _ _ _ _ _ _ Hrun)
    as (Hnames & _ & _ & Hfits & _ & _ & Hfiles).
  rewrite verify_keystores_value. simpl.
  apply py_all_true. rewrite Forall_fmap, Forall_lookup.
  intros k [c f] Hk. apply py_zip_lookup in Hk as [Hc Hf].
  unfold CredentialList.verify_pair. simpl.
  pose proof (export_paths_lookup _ password folder (encryptions w)
                (clock_reads w) _ _ Hc) as Hpath.
  rewrite <- Hnames in Hpath.
  assert (f = keystore_path_at c password folder (encryptions w + k)
                (clock_reads w + k)) as -> by congruence.
  apply (verify_own_keystore c password (encryptions w + k)); [done|..].
  - by apply (proj1 (Forall_lookup _ _) Hfits k).
  - apply Hread, Hfiles; [done|].
    intros j Hj Hsame.
    pose proof (proj1 (NoDup_alt _) Hnd _ _ _ Hsame Hpath). lia.
Qed.

(** X16: a batch whose credentials carry the signing paths of consecutive
    account indices, as [from_mnemonic] builds them, is exported to pairwise
    different paths whatever the clock reads: no keystore of the batch
    replaces another. *)
Theorem export_paths_of_batch_distinct (creds : list Credential.t)
    (start_index : Z) (password folder : string) (n m : nat) :
  (forall secret pw path rnd,
     Keystore_path (ScryptKeystore_encrypt secret pw path rnd) = path) ->
  (forall k c, creds !! k = Some c ->
     Credential.signing_key_path c
     = Credential.signing_key_path_of (start_index + Z.of_nat k)) ->
  NoDup (export_paths creds password folder n m).
Proof.
  intros Hlaw Hpaths. apply NoDup_alt. intros i j p Hi Hj.
  destruct (lookup_lt_is_Some_2 creds i) as [ci Hci].
  { rewrite <- (export_paths_length creds password folder n m).
    by eapply lookup_lt_Some. }
  destruct (lookup_lt_is_Some_2 creds j) as [cj Hcj].
  { rewrite <- (export_paths_length creds password folder n m).
    by eapply lookup_lt_Some. }
  rewrite (export_paths_lookup _ _ _ _ _ _ _ Hci) in Hi.
  rewrite (export_paths_lookup _ _ _ _ _ _ _ Hcj) in Hj.
  rewrite keystore_path_at_law in Hi, Hj by done.
  rewrite (Hpaths i ci Hci) in Hi. rewrite (Hpaths j cj Hcj) in Hj.
  assert (Heq : path_join folder
                  (keystore_file_name
                     (Credential.signing_key_path_of (start_index + Z.of_nat i))
                     (time_time (m + i)))
                = path_join folder
                    (keystore_file_name
                       (Credential.signing_key_path_of
                          (start_index + Z.of_nat j))
                       (time_time (m + j)))) by congruence.
  apply keystore_file_path_inj in Heq as [Heq _]. lia.
Qed.
(** *** The deposit data file *)

Lemma collect_all_ok {A B} (g : A -> result B) (l : list A) (ds : list B)
    (w : World) :
  Forall2 (fun x d => g x = Ok d) l ds ->
  comprehension (fun x => call (g x)) l w = (Ok ds, w).
Proof.
  induction 1 as [|x d l ds Hx _ IH]; simpl; [done|].
  unfold bind at 1. unfold call at 1. rewrite Hx.
  unfold bind at 1. by rewrite IH.
Qed.

Lemma collect_one_fails {A B} (g : A -> result B) (l : list A) (w : World) :
  Exists (fun x => is_ok (g x) = false) l ->
  exists e, comprehension (fun x => call (g x)) l w = (Raise e, w).
Proof.
  induction l as [|x l IH]; intros Hex; [by inversion Hex|].
  simpl. unfold bind at 1. unfold call at 1.
  destruct (g x) as [d|e] eqn:Hx; [|by exists e].
  inversion Hex as [? ? Hbad|? ? Hlater]; subst.
  - rewrite Hx in Hbad. discriminate.
  - destruct (IH Hlater) as [e He]. exists e.
    unfold bind at 1. by rewrite He.
Qed.

Lemma signed_deposit_fields c ov signed :
  value (Credential.generate_signed_deposit ov) c = Ok signed ->
  DepositData.pubkey signed = SkToPk (Credential.signing_sk c)
  /\ DepositData.withdrawal_credentials signed
     = match ov with
       | Some x => x
       | None => derived_withdrawal_credentials c
       end
  /\ DepositData.amount signed = Credential.amount c.
Proof.
  rewrite generate_signed_deposit_value.
  destruct (compute_deposit_domain _); [|discriminate].
  destruct (in_bounds _); [|discriminate].
  destruct (compute_signing_root _ _); [|discriminate].
  intros [= <-]. done.
Qed.

Lemma deposit_data_path_joined (folder : string) (now : Z) :
  path_join folder (deposit_data_file_name now)
  = folder_prefix folder +:+ deposit_data_file_name now.
Proof. by apply path_join_relative. Qed.

(** X17: [export_deposit_data_json] writes all the deposit data or nothing.
    If the datum of any credential of the list raises, in particular if the
    amount of any credential is out of bounds, the call raises and the world
    is as it was: no file is created and the clock is not read. *)
Theorem export_deposit_data_all_or_nothing (creds : list Credential.t)
    (folder : string) (ov : option bytes) (w : World) :
  (Exists (fun c => is_ok (value (Credential.generate_deposit_datum_dict ov)
                             c) = false) creds ->
   exists e,
     export_deposit_data_json {| CredentialList.credentials := creds |}
       folder ov w = (Raise e, w))
  /\ (Exists (fun c => ~ (MIN_DEPOSIT_AMOUNT <= Credential.amount c
                          <= MAX_DEPOSIT_AMOUNT)%Z) creds ->
      exists e,
        export_deposit_data_json {| CredentialList.credentials := creds |}
          folder ov w = (Raise e, w)).
Proof.
  assert (Hfail : Exists (fun c => is_ok (value
                    (Credential.generate_deposit_datum_dict ov) c) = false)
                    creds ->
                  exists e,
                    export_deposit_data_json
                      {| CredentialList.credentials := creds |} folder ov w
                    = (Raise e, w)).
  { intros Hex.
    destruct (collect_one_fails
                (fun c => value (Credential.generate_deposit_datum_dict ov) c)
                creds w Hex) as [e He].
    exists e. unfold export_deposit_data_json. simpl.
    unfold bind at 1. by rewrite He. }
  split; [exact Hfail|].
  intros Hex. apply Hfail.
  eapply Exists_impl; [exact Hex|].
  intros c Hout. simpl in Hout.
  rewrite generate_deposit_datum_dict_value, generate_signed_deposit_value.
  destruct (compute_deposit_domain _); [|done].
  destruct (in_bounds _) eqn:Hb; [|done].
  apply in_bounds_iff in Hb. contradiction.
Qed.

(** X18: what [export_deposit_data_json] writes.  When every credential has
    a datum, the call reads the clock once and writes, to
    folder/deposit_data-<clock reading>.json, one entry per credential in
    list order (or raises if that path cannot be opened, leaving the files
    as they were).  In the entry of a credential, pubkey is the hexadecimal
    text of SkToPk(signing_sk), withdrawal_credentials that of the override
    or else of 0x00 followed by SHA256(withdrawal_pk)[1:], amount the
    integer amount, fork_version the hexadecimal text of the fork version
    and deposit_cli_version the version string.  The path is never the path
    of a keystore file of the same folder. *)
Theorem export_deposit_data_entries (creds : list Credential.t)
    (ds : list (gmap string pyval)) (folder : string) (ov : option bytes)
    (w : World) :
  Forall2 (fun c d => value (Credential.generate_deposit_datum_dict ov) c
                      = Ok d) creds ds ->
  export_deposit_data_json {| CredentialList.credentials := creds |}
    folder ov w
  = (if can_open_for_writing
          (path_join folder (deposit_data_file_name
                               (time_time (clock_reads w))))
     then
       (Ok (path_join folder (deposit_data_file_name
                                (time_time (clock_reads w)))),
        mkWorld (S (clock_reads w)) (encryptions w)
          (<[path_join folder (deposit_data_file_name
                                 (time_time (clock_reads w)))
             := DepositDataFile (map (fmap json_default) ds)]> (files w)))
     else
       (Raise (CollaboratorError "open"),
        mkWorld (S (clock_reads w)) (encryptions w) (files w)))
  /\ length (map (fmap json_default) ds) = length creds
  /\ (forall k c entry,
        creds !! k = Some c ->
        map (fmap json_default) ds !! k = Some entry ->
        entry !! "pubkey"
        = Some (JString (bytes_hex (SkToPk (Credential.signing_sk c))))
        /\ entry !! "withdrawal_credentials"
           = Some (JString (bytes_hex
                     match ov with
                     | Some x => x
                     | None =>
                         BLS_WITHDRAWAL_PREFIX
                           ++ drop 1 (SHA256 (SkToPk
                                        (Credential.withdrawal_sk c)))
                     end))
        /\ entry !! "amount" = Some (JNumber (Credential.amount c))
        /\ entry !! "fork_version"
           = Some (JString (bytes_hex (Credential.fork_version c)))
        /\ entry !! "deposit_cli_version"
           = Some (JString DEPOSIT_CLI_VERSION))
  /\ (forall path t,
        path_join folder (deposit_data_file_name (time_time (clock_reads w)))
        <> path_join folder (keystore_file_name path t)).
Proof.
  intros Hds. split; [|split; [|split]].
  - unfold export_deposit_data_json. simpl.
    unfold bind at 1.
    rewrite (collect_all_ok
               (fun c => value (Credential.generate_deposit_datum_dict ov) c)
               creds ds w Hds).
    unfold bind, time_now, write_file, ret. simpl.
    destruct (can_open_for_writing _); done.
  - rewrite length_map. symmetry. by eapply Forall2_length.
  - intros k c entry Hc Hentry.
    rewrite list_lookup_fmap in Hentry.
    destruct (ds !! k) as [d|] eqn:Hd; [|discriminate].
    injection Hentry as <-.
    pose proof (Forall2_lookup_lr _ _ _ _ _ _ Hds Hc Hd) as Hdatum.
    simpl in Hdatum.
    destruct (generate_deposit_datum_dict_entries c ov d Hdatum)
      as (signed & dm_root & dd_root & Hs & _ & _ & Hpk & Hwc & Ha & _ & _ & _
          & Hfv & Hv).
    destruct (signed_deposit_fields c ov signed Hs) as (Epk & Ewc & Ea).
    rewrite !lookup_fmap, Hpk, Hwc, Ha, Hfv, Hv. simpl.
    rewrite Epk, Ewc, Ea. by destruct ov.
  - intros path t.
    rewrite deposit_data_path_joined, keystore_path_joined.
    intros Heq. apply (inj (String.app _)) in Heq.
    unfold deposit_data_file_name, keystore_file_name in Heq.
    change ("deposit_data-" +:+ pretty (time_time (clock_reads w)) +:+ ".json")
      with (String "d" ("eposit_data-"
                        +:+ pretty (time_time (clock_reads w)) +:+ ".json"))
      in Heq.
    change ("keystore-" +:+ replace_slash path +:+ "-" +:+ pretty t +:+ ".json")
      with (String "k" ("eystore-" +:+ replace_slash path +:+ "-"
                        +:+ pretty t +:+ ".json")) in Heq.
    discriminate.
Qed.
End FileFacts.

(** ** Hexadecimal text *)

Lemma hex_digit_inj (m n : N) :
  (m < 16)%N -> (n < 16)%N -> hex_digit m = hex_digit n -> m = n.
Proof.
  intros Hm Hn.
  assert (Hcases : forall k, (k < 16)%N ->
            k = 0%N \/ k = 1%N \/ k = 2%N \/ k = 3%N \/ k = 4%N \/ k = 5%N
            \/ k = 6%N \/ k = 7%N \/ k = 8%N \/ k = 9%N \/ k = 10%N
            \/ k = 11%N \/ k = 12%N \/ k = 13%N \/ k = 14%N \/ k = 15%N)
    by (intros; lia).
  destruct (Hcases m Hm) as [->|[->|[->|[->|[->|[->|[->|[->|[->|[->|[->|[->|
    [->|[->|[->| ->]]]]]]]]]]]]]]];
  destruct (Hcases n Hn) as [->|[->|[->|[->|[->|[->|[->|[->|[->|[->|[->|[->|
    [->|[->|[->| ->]]]]]]]]]]]]]]];
  simpl; intros Heq; first [reflexivity | discriminate Heq].
Qed.

Lemma byte_hex_inj (x y : Byte.byte) : byte_hex x = byte_hex y -> x = y.
Proof.
  unfold byte_hex. intros Heq. injection Heq as Hhi Hlo.
  pose proof (Byte.to_N_bounded x) as Hx.
  pose proof (Byte.to_N_bounded y) as Hy.
  assert (Hq : (Byte.to_N x / 16 = Byte.to_N y / 16)%N).
  { apply hex_digit_inj; [| |done];
      apply N.Div0.div_lt_upper_bound; lia. }
  assert (Hr : (Byte.to_N x mod 16 = Byte.to_N y mod 16)%N).
  { apply hex_digit_inj; [| |done]; apply N.mod_lt; lia. }
  assert (HN : Byte.to_N x = Byte.to_N y).
  { rewrite (N.div_mod (Byte.to_N x) 16), (N.div_mod (Byte.to_N y) 16) by lia.
    by rewrite Hq, Hr. }
  pose proof (Byte.of_to_N x) as Hox. rewrite HN, Byte.of_to_N in Hox.
  by injection Hox.
Qed.

(** X19: the hexadecimal text written for a byte field has two characters
    per byte and determines the bytes: different byte strings are written
    as different texts. *)
Theorem bytes_hex_faithful (b1 b2 : bytes) :
  String.length (bytes_hex b1) = 2 * length b1
  /\ (bytes_hex b1 = bytes_hex b2 <-> b1 = b2)
  /\ (json_default (VBytes b1) = json_default (VBytes b2) <-> b1 = b2).
Proof.
  assert (Hinj : forall c1 c2 : bytes, bytes_hex c1 = bytes_hex c2 -> c1 = c2).
  { induction c1 as [|x c1 IH]; intros [|y c2] Heq; simpl in Heq;
      try done; try (unfold byte_hex in Heq; discriminate).
    unfold byte_hex in Heq. rewrite !append_String in Heq.
    injection Heq as Hhi Hlo Hrest.
    f_equal.
    - apply byte_hex_inj. unfold byte_hex. by rewrite Hhi, Hlo.
    - by apply IH. }
  split; [|split].
  - induction b1 as [|x b1 IH]; [done|].
    change (bytes_hex (x :: b1))
      with (String (hex_digit (Byte.to_N x / 16))
              (String (hex_digit (Byte.to_N x mod 16)) (bytes_hex b1))).
    simpl String.length. rewrite IH. simpl. lia.
  - split; [apply Hinj | by intros ->].
  - simpl. split; [intros [= Heq]; by apply Hinj | by intros ->].
Qed.

(** * The properties on the sample collaborators *)

#[local] Existing Instance Sample.externals.

Lemma sample_digests_32 (b : bytes) : length (SHA256 b) = 32.
Proof. apply length_big_endian_digits. Qed.

Lemma sample_codec_wrong_password secret pw0 path fresh pw1 out :
  pw1 <> pw0 ->
  Keystore_decrypt (ScryptKeystore_encrypt secret pw0 path fresh) pw1 = Ok out ->
  length out = length secret /\ out <> secret.
Proof.
  intros Hne. simpl. unfold Sample.decrypt. simpl.
  destruct (String.eqb_spec pw0 pw1) as [->|_]; [contradiction | discriminate].
Qed.

Example sample_init :
  Credential.init "abc" "" 0 32000000000 Sample.mainnet_fork_version []
  = (Ok Sample.credential0,
     [KeyDerivationCall "abc" "m/12381/3600/0/0" "";
      KeyDerivationCall "abc" "m/12381/3600/0/0/0" ""]).
Proof. vm_compute. reflexivity. Qed.

Example sample_datum_roots :
  match value (Credential.generate_deposit_datum_dict
                 (Some Sample.other_credentials)) Sample.credential0 with
  | Ok d =>
      d !! "deposit_message_root"
      = Some (VBytes (Sample.digest 32
                        (Sample.message_number
                           (message_of Sample.credential0 None))))
      /\ d !! "withdrawal_credentials" = Some (VBytes Sample.other_credentials)
  | Raise _ => False
  end.
Proof. vm_compute. split; reflexivity. Qed.

Lemma withdrawal_credentials_layout_witness :
  (forall b, length (SHA256 b) = 32)
  /\ exists wc pk,
       value Credential.withdrawal_credentials Sample.credential0 = Ok wc
       /\ value Credential.withdrawal_pk Sample.credential0 = Ok pk
       /\ pk = SkToPk (Credential.withdrawal_sk Sample.credential0)
       /\ length wc = 32
       /\ wc !! 0 = Some Byte.x00
       /\ drop 1 wc = drop 1 (SHA256 pk)
       /\ length (drop 1 wc) = 31
       /\ (forall i, 1 <= i < 32 -> wc !! i = SHA256 pk !! i).
Proof.
  split.
  - exact sample_digests_32.
  - apply (withdrawal_credentials_layout Sample.credential0).
    exact sample_digests_32.
Defined.

(** An amount too large for the quotient [amount / ETH2GWEI] to be a float:
    formatting the text of the [ValidationError] raises [OverflowError], from
    (2^1024 - 2^970) * 10^9 Gwei on, in either sign; one Gwei below, and
    at 10^317, the error is the [ValidationError]. *)
Example sample_deposit_message_overflow :
  value Credential.deposit_message (with_amount Sample.credential0 (10 ^ 400))
  = Raise OverflowError
  /\ value Credential.deposit_message
       (with_amount Sample.credential0 (- 10 ^ 400))
     = Raise OverflowError
  /\ value Credential.deposit_message
       (with_amount Sample.credential0 ((2 ^ 1024 - 2 ^ 970) * 10 ^ 9))
     = Raise OverflowError
  /\ value Credential.deposit_message
       (with_amount Sample.credential0 ((2 ^ 1024 - 2 ^ 970) * 10 ^ 9 - 1))
     = Raise ValidationError
  /\ value Credential.deposit_message
       (with_amount Sample.credential0 (10 ^ 317))
     = Raise ValidationError
  /\ value (Credential.generate_signed_deposit None)
       (with_amount Sample.credential0 (10 ^ 400))
     = Raise OverflowError.
Proof. repeat split; vm_compute; reflexivity. Qed.

Lemma deposit_message_bounds_witness :
  (0 <= MIN_DEPOSIT_AMOUNT)%Z
  /\ (MIN_DEPOSIT_AMOUNT <= MAX_DEPOSIT_AMOUNT)%Z
  /\ (MAX_DEPOSIT_AMOUNT < 2 ^ 64)%Z
  /\ (0 <= Credential.amount Sample.credential0 < 2 ^ 64)%Z
  /\ (value Credential.deposit_message Sample.credential0
        = Raise ValidationError
      <-> (Credential.amount Sample.credential0 < MIN_DEPOSIT_AMOUNT
           \/ MAX_DEPOSIT_AMOUNT < Credential.amount Sample.credential0)%Z)
  /\ (forall e, value Credential.deposit_message Sample.credential0 = Raise e ->
                e = ValidationError)
  /\ ((MIN_DEPOSIT_AMOUNT <= Credential.amount Sample.credential0
       <= MAX_DEPOSIT_AMOUNT)%Z ->
      value Credential.deposit_message Sample.credential0 =
        Ok {| DepositMessage.pubkey :=
                SkToPk (Credential.signing_sk Sample.credential0);
              DepositMessage.withdrawal_credentials :=
                BLS_WITHDRAWAL_PREFIX
                  ++ drop 1 (SHA256 (SkToPk (Credential.withdrawal_sk
                                               Sample.credential0)));
              DepositMessage.amount := Credential.amount Sample.credential0 |})
  /\ value Credential.deposit_message
       (with_amount Sample.credential0 (MIN_DEPOSIT_AMOUNT - 1))
     = Raise ValidationError
  /\ value Credential.deposit_message
       (with_amount Sample.credential0 (MAX_DEPOSIT_AMOUNT + 1))
     = Raise ValidationError
  /\ value Credential.deposit_message
       (with_amount Sample.credential0 MIN_DEPOSIT_AMOUNT)
     = Ok (message_of (with_amount Sample.credential0 MIN_DEPOSIT_AMOUNT) None)
  /\ value Credential.deposit_message
       (with_amount Sample.credential0 MAX_DEPOSIT_AMOUNT)
     = Ok (message_of (with_amount Sample.credential0 MAX_DEPOSIT_AMOUNT) None).
Proof.
  assert (Hmin : (0 <= MIN_DEPOSIT_AMOUNT)%Z) by (vm_compute; discriminate).
  assert (Hconst : (MIN_DEPOSIT_AMOUNT <= MAX_DEPOSIT_AMOUNT)%Z)
    by (vm_compute; discriminate).
  assert (Hmax : (MAX_DEPOSIT_AMOUNT < 2 ^ 64)%Z) by (vm_compute; reflexivity).
  assert (Hamount : (0 <= Credential.amount Sample.credential0 < 2 ^ 64)%Z)
    by (split; [vm_compute; discriminate | vm_compute; reflexivity]).
  split; [exact Hmin|]. split; [exact Hconst|]. split; [exact Hmax|].
  split; [exact Hamount|].
  exact (deposit_message_bounds Sample.credential0 Hmin Hconst Hmax Hamount).
Defined.

Lemma from_mnemonic_length_mismatch_witness :
  Z.of_nat (length [32000000000%Z]) <> 2%Z
  /\ CredentialList.from_mnemonic "abc" "" 2 [32000000000%Z]
       Sample.mainnet_fork_version 0 []
     = (Raise ValueError, [])
  /\ (forall index amount tr',
        state_after (Credential.init "abc" "" index amount
                       Sample.mainnet_fork_version) tr'
        <> tr').
Proof.
  assert (Hne : Z.of_nat (length [32000000000%Z]) <> 2%Z) by (simpl; lia).
  split; [exact Hne|].
  exact (from_mnemonic_length_mismatch "abc" "" 2 [32000000000%Z]
           Sample.mainnet_fork_version 0 [] Hne).
Defined.

Lemma credential_derivation_paths_witness :
  value (Credential.init "abc" "" 0 32000000000 Sample.mainnet_fork_version) []
  = Ok Sample.credential0
  /\ Credential.withdrawal_key_path_of 0 = "m/12381/3600/0/0"
  /\ Credential.signing_key_path Sample.credential0 = "m/12381/3600/0/0/0"
  /\ Credential.signing_key_path Sample.credential0
     <> Credential.withdrawal_key_path_of 0
  /\ split_slash (Credential.withdrawal_key_path_of 0)
     = ["m"; "12381"; "3600"; "0"; "0"]
  /\ split_slash (Credential.signing_key_path Sample.credential0)
     = ["m"; "12381"; "3600"; "0"; "0"; "0"]
  /\ mnemonic_and_path_to_key "abc" (Credential.withdrawal_key_path_of 0) ""
     = Ok (Credential.withdrawal_sk Sample.credential0)
  /\ mnemonic_and_path_to_key "abc"
       (Credential.signing_key_path Sample.credential0) ""
     = Ok (Credential.signing_sk Sample.credential0)
  /\ state_after (Credential.init "abc" "" 0 32000000000
                    Sample.mainnet_fork_version) []
     = [KeyDerivationCall "abc" "m/12381/3600/0/0" "";
        KeyDerivationCall "abc" "m/12381/3600/0/0/0" ""].
Proof.
  assert (Hinit : value (Credential.init "abc" "" 0 32000000000
                           Sample.mainnet_fork_version) []
                  = Ok Sample.credential0) by (vm_compute; reflexivity).
  split; [exact Hinit|].
  exact (credential_derivation_paths "abc" "" 0 32000000000
           Sample.mainnet_fork_version [] Sample.credential0 Hinit).
Defined.

Lemma generate_deposit_datum_dict_message_root_ignores_override_witness :
  value (Credential.generate_deposit_datum_dict (Some Sample.other_credentials))
    Sample.credential0 = Ok Sample.datum_with_override
  /\ exists signed root_derived dd_root,
       value (Credential.generate_signed_deposit (Some Sample.other_credentials))
         Sample.credential0 = Ok signed
       /\ DepositData.withdrawal_credentials signed = Sample.other_credentials
       /\ hash_tree_root_message
            {| DepositMessage.pubkey :=
                 SkToPk (Credential.signing_sk Sample.credential0);
               DepositMessage.withdrawal_credentials :=
                 BLS_WITHDRAWAL_PREFIX
                   ++ drop 1 (SHA256 (SkToPk (Credential.withdrawal_sk
                                                Sample.credential0)));
               DepositMessage.amount := Credential.amount Sample.credential0 |}
          = Ok root_derived
       /\ Sample.datum_with_override !! "deposit_message_root"
          = Some (VBytes root_derived)
       /\ hash_tree_root_data signed = Ok dd_root
       /\ Sample.datum_with_override !! "deposit_data_root"
          = Some (VBytes dd_root)
       /\ Sample.datum_with_override !! "withdrawal_credentials"
          = Some (VBytes Sample.other_credentials)
       /\ Sample.datum_with_override !! "fork_version"
          = Some (VBytes (Credential.fork_version Sample.credential0))
       /\ Sample.datum_with_override !! "deposit_cli_version"
          = Some (VStr DEPOSIT_CLI_VERSION)
       /\ (forall root_signed,
             hash_tree_root_message
               {| DepositMessage.pubkey := DepositData.pubkey signed;
                  DepositMessage.withdrawal_credentials :=
                    DepositData.withdrawal_credentials signed;
                  DepositMessage.amount := DepositData.amount signed |}
               = Ok root_signed ->
             root_signed <> root_derived ->
             Sample.datum_with_override !! "deposit_message_root"
             <> Some (VBytes root_signed)).
Proof.
  assert (Hrun : value (Credential.generate_deposit_datum_dict
                          (Some Sample.other_credentials)) Sample.credential0
                 = Ok Sample.datum_with_override) by (vm_compute; reflexivity).
  split; [exact Hrun|].
  exact (generate_deposit_datum_dict_message_root_ignores_override
           Sample.credential0 Sample.other_credentials
           Sample.datum_with_override Hrun).
Defined.

(** At this input the root of the message that was signed and the entry
    deposit_message_root are different byte strings. *)
Example sample_message_root_differs :
  exists signed root_signed,
    value (Credential.generate_signed_deposit (Some Sample.other_credentials))
      Sample.credential0 = Ok signed
    /\ hash_tree_root_message
         {| DepositMessage.pubkey := DepositData.pubkey signed;
            DepositMessage.withdrawal_credentials :=
              DepositData.withdrawal_credentials signed;
            DepositMessage.amount := DepositData.amount signed |}
       = Ok root_signed
    /\ Sample.datum_with_override !! "deposit_message_root"
       <> Some (VBytes root_signed).
Proof.
  eexists. eexists. split; [vm_compute; reflexivity|].
  split; [vm_compute; reflexivity|].
  vm_compute. discriminate.
Qed.

Lemma from_mnemonic_ascending_witness :
  Z.of_nat (length [1000000000%Z; 32000000000%Z]) = 2%Z
  /\ (forall k, k < length [1000000000%Z; 32000000000%Z] ->
        is_ok (mnemonic_and_path_to_key "abc"
                 (Credential.withdrawal_key_path_of (5 + Z.of_nat k)) "") = true
        /\ is_ok (mnemonic_and_path_to_key "abc"
                    (Credential.signing_key_path_of (5 + Z.of_nat k)) "") = true)
  /\ exists creds,
       CredentialList.from_mnemonic "abc" "" 2 [1000000000%Z; 32000000000%Z]
         Sample.mainnet_fork_version 5 []
       = (Ok {| CredentialList.credentials := creds |},
          [] ++ concat (map (fun k => derivations_of "abc" "" (5 + Z.of_nat k))
                            (seq 0 (length [1000000000%Z; 32000000000%Z]))))
       /\ Z.of_nat (length creds) = 2%Z
       /\ py_range 5 (5 + 2)
          = map (fun k => (5 + Z.of_nat k)%Z) (seq 0 (length creds))
       /\ (forall k a,
             [1000000000%Z; 32000000000%Z] !! k = Some a ->
             exists c,
               creds !! k = Some c
               /\ (forall tr0,
                     value (Credential.init "abc" "" (5 + Z.of_nat k) a
                              Sample.mainnet_fork_version) tr0 = Ok c)
               /\ Credential.amount c = a
               /\ Credential.fork_version c = Sample.mainnet_fork_version
               /\ Credential.signing_key_path c
                  = Credential.signing_key_path_of (5 + Z.of_nat k)
               /\ mnemonic_and_path_to_key "abc"
                    (Credential.withdrawal_key_path_of (5 + Z.of_nat k)) ""
                  = Ok (Credential.withdrawal_sk c)
               /\ mnemonic_and_path_to_key "abc"
                    (Credential.signing_key_path_of (5 + Z.of_nat k)) ""
                  = Ok (Credential.signing_sk c))
       /\ (forall amounts' fv' tr',
             length amounts' = length [1000000000%Z; 32000000000%Z] ->
             key_material
               (value (CredentialList.from_mnemonic "abc" "" 2 amounts' fv' 5)
                  tr')
             = key_material (Ok {| CredentialList.credentials := creds |})).
Proof.
  assert (Hlen : Z.of_nat (length [1000000000%Z; 32000000000%Z]) = 2%Z)
    by reflexivity.
  assert (Hkeys : forall k, k < length [1000000000%Z; 32000000000%Z] ->
            is_ok (mnemonic_and_path_to_key "abc"
                     (Credential.withdrawal_key_path_of (5 + Z.of_nat k)) "")
            = true
            /\ is_ok (mnemonic_and_path_to_key "abc"
                        (Credential.signing_key_path_of (5 + Z.of_nat k)) "")
               = true)
    by (intros k _; split; reflexivity).
  split; [exact Hlen|]. split; [exact Hkeys|].
  exact (from_mnemonic_ascending "abc" "" 2 [1000000000%Z; 32000000000%Z]
           Sample.mainnet_fork_version 5 [] Hlen Hkeys).
Defined.

Example sample_from_mnemonic :
  CredentialList.from_mnemonic "abc" "" 2 [1000000000%Z; 32000000000%Z]
    Sample.mainnet_fork_version 5 []
  = (Ok {| CredentialList.credentials :=
             [ {| Credential.withdrawal_sk := 115;
                  Credential.signing_sk := 129;
                  Credential.signing_key_path := "m/12381/3600/5/0/0";
                  Credential.amount := 1000000000;
                  Credential.fork_version := Sample.mainnet_fork_version |};
               {| Credential.withdrawal_sk := 115;
                  Credential.signing_sk := 129;
                  Credential.signing_key_path := "m/12381/3600/6/0/0";
                  Credential.amount := 32000000000;
                  Credential.fork_version := Sample.mainnet_fork_version |} ] |},
     [KeyDerivationCall "abc" "m/12381/3600/5/0" "";
      KeyDerivationCall "abc" "m/12381/3600/5/0/0" "";
      KeyDerivationCall "abc" "m/12381/3600/6/0" "";
      KeyDerivationCall "abc" "m/12381/3600/6/0/0" ""]).
Proof. vm_compute. reflexivity. Qed.

Example sample_verify_right_password :
  value (Credential.verify_keystore Sample.keystore_file0 "MyPassword")
    Sample.credential0 = Ok true.
Proof. vm_compute. reflexivity. Qed.

Example sample_verify_wrong_password :
  value (Credential.verify_keystore Sample.keystore_file0 "NotMyPassword")
    Sample.credential0 = Raise (CollaboratorError "decrypt").
Proof. vm_compute. reflexivity. Qed.

Lemma verify_keystores_by_position_witness :
  (forall secret pw0 path fresh pw1 out,
     pw1 <> pw0 ->
     Keystore_decrypt (ScryptKeystore_encrypt secret pw0 path fresh) pw1
       = Ok out ->
     length out = length secret /\ out <> secret)
  /\ (forall i c f,
        py_zip [Sample.credential0] [Sample.keystore_file0] !! i = Some (c, f)
        <-> [Sample.credential0] !! i = Some c
            /\ [Sample.keystore_file0] !! i = Some f)
  /\ (value (CredentialList.verify_keystores [Sample.keystore_file0]
               "MyPassword")
        {| CredentialList.credentials := [Sample.credential0] |} = Ok true
      <-> forall i c f,
            [Sample.credential0] !! i = Some c ->
            [Sample.keystore_file0] !! i = Some f ->
            value (Credential.verify_keystore f "MyPassword") c = Ok true)
  /\ (forall bs,
        map (fun item => value (Credential.verify_keystore (snd item)
                                  "MyPassword") (fst item))
            (py_zip [Sample.credential0] [Sample.keystore_file0])
        = map Ok bs ->
        value (CredentialList.verify_keystores [Sample.keystore_file0]
                 "MyPassword")
          {| CredentialList.credentials := [Sample.credential0] |}
        = Ok (fold_right andb true bs))
  /\ (forall c f,
        value (Credential.verify_keystore f "MyPassword") c = Ok true
        <-> exists ks secret,
              Keystore_from_file f = Ok ks
              /\ Keystore_decrypt ks "MyPassword" = Ok secret
              /\ int_from_bytes_big secret = Credential.signing_sk c)
  /\ (forall c f pw0 fresh ks,
        value (Credential.signing_keystore pw0 fresh) c = Ok ks ->
        Keystore_from_file f = Ok ks ->
        "MyPassword" <> pw0 ->
        value (Credential.verify_keystore f "MyPassword") c <> Ok true).
Proof.
  split; [exact sample_codec_wrong_password|].
  exact (verify_keystores_by_position
           {| CredentialList.credentials := [Sample.credential0] |}
           [Sample.keystore_file0] "MyPassword" sample_codec_wrong_password).
Defined.

(** Two credentials, one file: the second credential is never looked at and
    the batch verifies. *)
Example sample_batch_short_file_list :
  value (CredentialList.verify_keystores [Sample.keystore_file0] "MyPassword")
    {| CredentialList.credentials := [Sample.credential0; Sample.credential1] |}
  = Ok true
  /\ value (Credential.verify_keystore "keystore-m_12381_3600_1_0_0-1.json"
              "MyPassword") Sample.credential1
     = Raise (CollaboratorError "decrypt").
Proof. split; vm_compute; reflexivity. Qed.

Lemma verify_keystores_truncates_witness :
  value (CredentialList.verify_keystores [Sample.keystore_file0] "MyPassword")
    {| CredentialList.credentials := [Sample.credential0] ++ [Sample.credential1] |}
  = Ok true
  /\ value (CredentialList.verify_keystores
              [Sample.keystore_file0; "keystore-m_12381_3600_1_0_0-1.json"]
              "MyPassword")
       {| CredentialList.credentials :=
            [Sample.credential0; Sample.credential1] ++ [Sample.credential0] |}
     = Raise (CollaboratorError "decrypt").
Proof.
  split.
  - refine (proj1 (proj2 (proj2 (proj2 (proj2
              (verify_keystores_truncates [Sample.credential0]
                 [Sample.credential1] [Sample.keystore_file0] []
                 "MyPassword"))))) _ _).
    + simpl. lia.
    + intros i c f Hc Hf.
      destruct i as [|i]; [|discriminate].
      injection Hc as <-. injection Hf as <-.
      vm_compute. reflexivity.
  - refine (proj2 (proj2 (proj2 (proj2 (proj2 (proj2 (proj2
              (verify_keystores_truncates
                 [Sample.credential0; Sample.credential1]
                 [Sample.credential0]
                 [Sample.keystore_file0;
                  "keystore-m_12381_3600_1_0_0-1.json"] []
                 "MyPassword")))))))
              _ 1 Sample.credential1 "keystore-m_12381_3600_1_0_0-1.json"
              (Raise (CollaboratorError "decrypt")) _ _ _ _ _).
    + simpl. lia.
    + reflexivity.
    + reflexivity.
    + intros i ci fi Hi Hc Hf.
      destruct i as [|i]; [|lia].
      injection Hc as <-. injection Hf as <-.
      vm_compute. reflexivity.
    + vm_compute. reflexivity.
    + discriminate.
Defined.

(** * The further properties on the second instance *)

Section DiskWitnesses.
#[local] Existing Instance Disk.externals | 0.
#[local] Existing Instance Disk.environment | 0.

Lemma disk_codec_round_trip secret pw path rnd :
  Keystore_decrypt (ScryptKeystore_encrypt secret pw path rnd) pw = Ok secret.
Proof. simpl. unfold Disk.decrypt. simpl. by rewrite String.eqb_refl. Qed.

Lemma disk_keystore_path secret pw path rnd :
  Keystore_path (ScryptKeystore_encrypt secret pw path rnd) = path.
Proof. reflexivity. Qed.

Lemma disk_keys_accepted (k : nat) :
  k < 2 ->
  is_ok (mnemonic_and_path_to_key "abc"
           (Credential.withdrawal_key_path_of (8 + Z.of_nat k)) "") = true
  /\ is_ok (mnemonic_and_path_to_key "abc"
              (Credential.signing_key_path_of (8 + Z.of_nat k)) "") = true.
Proof.
  intros Hk. destruct k as [|[|k]]; [split; vm_compute; reflexivity..|lia].
Qed.

Lemma from_mnemonic_stops_at_first_failure_witness :
  CredentialList.from_mnemonic "abc" ""
    (Z.of_nat (length [1000000000%Z; 32000000000%Z; 32000000000%Z; 1%Z]))
    [1000000000%Z; 32000000000%Z; 32000000000%Z; 1%Z]
    Sample.mainnet_fork_version 8 []
  = (Raise (CollaboratorError "path"),
     [KeyDerivationCall "abc" "m/12381/3600/8/0" "";
      KeyDerivationCall "abc" "m/12381/3600/8/0/0" "";
      KeyDerivationCall "abc" "m/12381/3600/9/0" "";
      KeyDerivationCall "abc" "m/12381/3600/9/0/0" "";
      KeyDerivationCall "abc" "m/12381/3600/10/0" "";
      KeyDerivationCall "abc" "m/12381/3600/10/0/0" ""]).
Proof.
  refine (eq_trans
            (from_mnemonic_stops_at_first_failure "abc" ""
               [1000000000%Z; 32000000000%Z; 32000000000%Z; 1%Z]
               Sample.mainnet_fork_version 8 [] 2
               (CollaboratorError "path") _ _ _) _).
  - simpl. lia.
  - intros k Hk. by apply disk_keys_accepted.
  - right. split; vm_compute; reflexivity.
  - vm_compute. reflexivity.
Defined.
Lemma from_mnemonic_paths_distinct_witness :
  exists creds,
    value (CredentialList.from_mnemonic "abc" ""
             (Z.of_nat (length [1000000000%Z; 32000000000%Z]))
             [1000000000%Z; 32000000000%Z] Sample.mainnet_fork_version 8) []
    = Ok {| CredentialList.credentials := creds |}
    /\ NoDup (map Credential.signing_key_path creds).
Proof.
  apply (from_mnemonic_paths_distinct "abc" ""
           [1000000000%Z; 32000000000%Z] Sample.mainnet_fork_version 8 []).
  intros k Hk. by apply disk_keys_accepted.
Defined.

Lemma signing_keystore_verifies_witness :
  value (Credential.signing_keystore "MyPassword" []) Disk.credential8
  = Ok Disk.keystore8
  /\ Keystore_from_file Disk.file8 = Ok Disk.keystore8
  /\ value (Credential.verify_keystore Disk.file8 "MyPassword")
       Disk.credential9
     = Ok (Credential.signing_sk Disk.credential9
           =? Credential.signing_sk Disk.credential8)%Z
  /\ value (Credential.verify_keystore Disk.file8 "MyPassword")
       Disk.credential8 = Ok true.
Proof.
  assert (Hks : value (Credential.signing_keystore "MyPassword" [])
                  Disk.credential8 = Ok Disk.keystore8)
    by (vm_compute; reflexivity).
  assert (Hfile : Keystore_from_file Disk.file8 = Ok Disk.keystore8)
    by (vm_compute; reflexivity).
  split; [exact Hks|]. split; [exact Hfile|].
  exact (signing_keystore_verifies Disk.credential8 Disk.credential9
           "MyPassword" [] Disk.file8 Disk.keystore8
           disk_codec_round_trip Hks Hfile).
Defined.

Lemma verify_keystores_first_failure_witness :
  value (CredentialList.verify_keystores [Disk.file8; "missing.json"]
           "MyPassword")
    {| CredentialList.credentials := [Disk.credential8; Disk.credential9] |}
  = Raise (CollaboratorError "open").
Proof.
  apply (verify_keystores_first_failure
           [Disk.credential8; Disk.credential9] [Disk.file8; "missing.json"]
           "MyPassword" 1 Disk.credential9 "missing.json").
  - intros i ci fi Hi Hc Hf. destruct i as [|i]; [|lia].
    injection Hc as <-. injection Hf as <-. vm_compute. reflexivity.
  - reflexivity.
  - reflexivity.
  - vm_compute. reflexivity.
  - discriminate.
Defined.

Lemma no_deposit_out_of_bounds_witness :
  value (Credential.generate_signed_deposit None) Disk.underfunded_credential
  = Raise ValidationError
  /\ value (Credential.generate_deposit_datum_dict None)
       Disk.underfunded_credential
     = Raise ValidationError.
Proof.
  refine (proj1 (proj2 (proj2 (no_deposit_out_of_bounds
                                 Disk.underfunded_credential None))) _).
  change (~ (1000000000 <= 999999999 <= 32000000000)%Z). lia.
Defined.

Lemma disk_datum_of (c : Credential.t) :
  is_ok (value (Credential.generate_deposit_datum_dict None) c) = true ->
  value (Credential.generate_deposit_datum_dict None) c
  = Ok (Disk.datum_of c).
Proof.
  unfold Disk.datum_of.
  destruct (value (Credential.generate_deposit_datum_dict None) c);
    [reflexivity | discriminate].
Qed.

Lemma disk_datum8 :
  value (Credential.generate_deposit_datum_dict None) Disk.credential8
  = Ok (Disk.datum_of Disk.credential8).
Proof. apply disk_datum_of. vm_compute. reflexivity. Qed.

Lemma disk_datum9 :
  value (Credential.generate_deposit_datum_dict None) Disk.credential9
  = Ok (Disk.datum_of Disk.credential9).
Proof. apply disk_datum_of. vm_compute. reflexivity. Qed.

Lemma deposit_datum_dict_keys_witness :
  value (Credential.generate_deposit_datum_dict None) Disk.credential8
  = Ok (Disk.datum_of Disk.credential8)
  /\ dom (Disk.datum_of Disk.credential8)
     = ({["pubkey"; "withdrawal_credentials"; "amount"; "signature";
          "deposit_message_root"; "deposit_data_root"; "fork_version";
          "deposit_cli_version"]} : gset string)
  /\ size (Disk.datum_of Disk.credential8) = 8.
Proof.
  pose proof disk_datum8 as Hd.
  split; [exact Hd|].
  exact (deposit_datum_dict_keys Disk.credential8 None
           (Disk.datum_of Disk.credential8) Hd).
Defined.

Lemma deposit_datum_roots_without_override_witness :
  value (Credential.generate_deposit_datum_dict None) Disk.credential8
  = Ok (Disk.datum_of Disk.credential8)
  /\ exists signed message_root data_root,
       value (Credential.generate_signed_deposit None) Disk.credential8
       = Ok signed
       /\ Disk.datum_of Disk.credential8 !! "pubkey"
          = Some (VBytes (DepositData.pubkey signed))
       /\ Disk.datum_of Disk.credential8 !! "withdrawal_credentials"
          = Some (VBytes (DepositData.withdrawal_credentials signed))
       /\ Disk.datum_of Disk.credential8 !! "amount"
          = Some (VInt (DepositData.amount signed))
       /\ Disk.datum_of Disk.credential8 !! "signature"
          = Some (VBytes (DepositData.signature signed))
       /\ hash_tree_root_message
            {| DepositMessage.pubkey := DepositData.pubkey signed;
               DepositMessage.withdrawal_credentials :=
                 DepositData.withdrawal_credentials signed;
               DepositMessage.amount := DepositData.amount signed |}
          = Ok message_root
       /\ Disk.datum_of Disk.credential8 !! "deposit_message_root"
          = Some (VBytes message_root)
       /\ hash_tree_root_data signed = Ok data_root
       /\ Disk.datum_of Disk.credential8 !! "deposit_data_root"
          = Some (VBytes data_root).
Proof.
  pose proof disk_datum8 as Hd.
  split; [exact Hd|].
  exact (deposit_datum_roots_without_override Disk.credential8
           (Disk.datum_of Disk.credential8) Hd).
Defined.
Lemma disk_fits_8 : fits_32_bytes Disk.credential8.
Proof. unfold fits_32_bytes. simpl. split; [lia | reflexivity]. Qed.

Lemma disk_fits_9 : fits_32_bytes Disk.credential9.
Proof. unfold fits_32_bytes. simpl. split; [lia | reflexivity]. Qed.

Lemma disk_oversized : ~ fits_32_bytes Disk.oversized_credential.
Proof. unfold fits_32_bytes. simpl. lia. Qed.

Lemma save_signing_keystore_effect_witness :
  save_signing_keystore Disk.oversized_credential "MyPassword"
    "validator_keys" Disk.empty_world
  = (Raise OverflowError, Disk.empty_world)
  /\ value (save_signing_keystore Disk.credential8 "MyPassword" "readonly")
       Disk.empty_world
     = Raise (CollaboratorError "open")
  /\ value (save_signing_keystore Disk.credential8 "MyPassword"
              "validator_keys") Disk.empty_world
     = Ok Disk.file8.
Proof.
  split; [|split].
  - exact (proj1 (save_signing_keystore_effect Disk.oversized_credential
                    "MyPassword" "validator_keys" Disk.empty_world)
             disk_oversized).
  - exact (proj1 (proj1 (proj2 (save_signing_keystore_effect Disk.credential8
                                  "MyPassword" "readonly" Disk.empty_world))
                    disk_fits_8 eq_refl)).
  - exact (proj1 (proj2 (proj2 (save_signing_keystore_effect Disk.credential8
                                  "MyPassword" "validator_keys"
                                  Disk.empty_world))
                    disk_fits_8 eq_refl)).
Defined.

Lemma disk_batch_writable (k : nat) (c : Credential.t) :
  [Disk.credential8; Disk.credential9] !! k = Some c ->
  can_open_for_writing
    (path_join "validator_keys"
       (keystore_file_name (Credential.signing_key_path c)
          (time_time (clock_reads Disk.empty_world + k)))) = true.
Proof.
  intros Hc. destruct k as [|[|k]]; [| |discriminate];
    injection Hc as <-; vm_compute; reflexivity.
Qed.

Lemma export_keystores_writes_witness :
  exists names w',
    export_keystores Disk.batch "MyPassword" "validator_keys" Disk.empty_world
    = (Ok names, w')
    /\ length names = length [Disk.credential8; Disk.credential9]
    /\ (forall k c, [Disk.credential8; Disk.credential9] !! k = Some c ->
          names !! k
          = Some (path_join "validator_keys"
                    (keystore_file_name (Credential.signing_key_path c)
                       (time_time (clock_reads Disk.empty_world + k)))))
    /\ (forall p, p ∉ names -> files w' !! p = files Disk.empty_world !! p)
    /\ (NoDup names ->
        forall k c p,
          [Disk.credential8; Disk.credential9] !! k = Some c ->
          names !! k = Some p ->
          files w' !! p
          = Some (KeystoreFile
                    (keystore_at c "MyPassword"
                       (encryptions Disk.empty_world + k))))
    /\ clock_reads w'
       = clock_reads Disk.empty_world
         + length [Disk.credential8; Disk.credential9].
Proof.
  apply (export_keystores_writes [Disk.credential8; Disk.credential9]
           "MyPassword" "validator_keys" Disk.empty_world).
  - exact disk_keystore_path.
  - constructor; [exact disk_fits_8|].
    constructor; [exact disk_fits_9 | constructor].
  - exact disk_batch_writable.
Defined.

Lemma disk_path8 :
  keystore_path_at Disk.credential8 "MyPassword" "validator_keys" 0 0
  = Disk.file8.
Proof. vm_compute. reflexivity. Qed.

Lemma disk_path9 :
  keystore_path_at Disk.credential9 "MyPassword" "validator_keys" 1 1
  = Disk.file9.
Proof. vm_compute. reflexivity. Qed.

Lemma disk_export_first :
  save_signing_keystore Disk.credential8 "MyPassword" "validator_keys"
    Disk.empty_world
  = (Ok Disk.file8,
     mkWorld 1 1 (<[Disk.file8 := KeystoreFile Disk.keystore8]> ∅)).
Proof.
  rewrite save_signing_keystore_run.
  destruct (decide (fits_32_bytes Disk.credential8)) as [_|Hno];
    [|destruct (Hno disk_fits_8)].
  change (encryptions Disk.empty_world) with 0.
  change (clock_reads Disk.empty_world) with 0.
  rewrite disk_path8.
  change (can_open_for_writing Disk.file8) with true.
  reflexivity.
Qed.

Lemma disk_export_run :
  export_keystores Disk.batch "MyPassword" "validator_keys" Disk.empty_world
  = (Ok [Disk.file8; Disk.file9], Disk.world_after_export).
Proof.
  unfold Disk.batch.
  rewrite export_keystores_cons, disk_export_first.
  rewrite export_keystores_cons, save_signing_keystore_run.
  destruct (decide (fits_32_bytes Disk.credential9)) as [_|Hno];
    [|destruct (Hno disk_fits_9)].
  cbn [encryptions clock_reads files].
  rewrite disk_path9.
  change (can_open_for_writing Disk.file9) with true.
  reflexivity.
Qed.

Lemma export_keystores_aborts_witness :
  export_keystores
    {| CredentialList.credentials := [Disk.credential8] |}
    "MyPassword" "validator_keys" Disk.empty_world
  = (Ok [Disk.file8],
     mkWorld 1 1 (<[Disk.file8 := KeystoreFile Disk.keystore8]> ∅))
  /\ exists w2,
       export_keystores
         {| CredentialList.credentials :=
              [Disk.credential8] ++ Disk.oversized_credential
                :: [Disk.credential9] |}
         "MyPassword" "validator_keys" Disk.empty_world
       = (Raise (if decide (fits_32_bytes Disk.oversized_credential)
                 then CollaboratorError "open" else OverflowError), w2)
       /\ files w2
          = files (mkWorld 1 1 (<[Disk.file8 := KeystoreFile Disk.keystore8]> ∅)).
Proof.
  assert (Hpre : export_keystores
                   {| CredentialList.credentials := [Disk.credential8] |}
                   "MyPassword" "validator_keys" Disk.empty_world
                 = (Ok [Disk.file8],
                    mkWorld 1 1
                      (<[Disk.file8 := KeystoreFile Disk.keystore8]> ∅)))
    by (rewrite export_keystores_cons, disk_export_first; reflexivity).
  split; [exact Hpre|].
  exact (export_keystores_aborts [Disk.credential8] [Disk.credential9]
           Disk.oversized_credential "MyPassword" "validator_keys"
           Disk.empty_world _ [Disk.file8] Hpre (or_introl disk_oversized)).
Defined.

Lemma disk_files_distinct : NoDup [Disk.file8; Disk.file9].
Proof.
  apply NoDup_cons. split.
  - rewrite list_elem_of_singleton. discriminate.
  - apply NoDup_singleton.
Qed.

Lemma disk_reads_back (p : string) (k : Keystore) :
  files Disk.world_after_export !! p = Some (KeystoreFile k) ->
  Keystore_from_file p = Ok k.
Proof.
  unfold Disk.world_after_export. cbn [files]. intros Hp.
  apply lookup_insert_Some in Hp as [[<- Hk]|[_ Hp]].
  - injection Hk as <-. vm_compute. reflexivity.
  - apply lookup_insert_Some in Hp as [[<- Hk]|[_ Hp]].
    + injection Hk as <-. vm_compute. reflexivity.
    + by rewrite lookup_empty in Hp.
Qed.

Lemma export_then_verify_witness :
  export_keystores Disk.batch "MyPassword" "validator_keys" Disk.empty_world
  = (Ok [Disk.file8; Disk.file9], Disk.world_after_export)
  /\ NoDup [Disk.file8; Disk.file9]
  /\ value (CredentialList.verify_keystores [Disk.file8; Disk.file9]
              "MyPassword") Disk.batch = Ok true.
Proof.
  split; [exact disk_export_run|]. split; [exact disk_files_distinct|].
  exact (export_then_verify [Disk.credential8; Disk.credential9] "MyPassword"
           "validator_keys" Disk.empty_world Disk.world_after_export
           [Disk.file8; Disk.file9] disk_codec_round_trip disk_export_run
           disk_files_distinct disk_reads_back).
Defined.

Lemma export_paths_of_batch_distinct_witness :
  NoDup (export_paths [Disk.credential8; Disk.credential9] "MyPassword"
           "validator_keys" 0 0).
Proof.
  apply (export_paths_of_batch_distinct [Disk.credential8; Disk.credential9]
           8 "MyPassword" "validator_keys" 0 0).
  - exact disk_keystore_path.
  - intros k c Hc. destruct k as [|[|k]]; [| |discriminate];
      injection Hc as <-; vm_compute; reflexivity.
Defined.

Lemma export_deposit_data_all_or_nothing_witness :
  exists e,
    export_deposit_data_json
      {| CredentialList.credentials :=
           [Disk.credential8; Disk.underfunded_credential] |}
      "validator_keys" None Disk.empty_world
    = (Raise e, Disk.empty_world).
Proof.
  apply (proj2 (export_deposit_data_all_or_nothing
                  [Disk.credential8; Disk.underfunded_credential]
                  "validator_keys" None Disk.empty_world)).
  apply Exists_cons_tl, Exists_cons_hd.
  change (~ (1000000000 <= 999999999 <= 32000000000)%Z). lia.
Defined.

Lemma disk_data :
  Forall2 (fun c d => value (Credential.generate_deposit_datum_dict None) c
                      = Ok d)
    [Disk.credential8; Disk.credential9]
    [Disk.datum_of Disk.credential8; Disk.datum_of Disk.credential9].
Proof.
  constructor; [exact disk_datum8|].
  constructor; [exact disk_datum9 | constructor].
Qed.

Lemma export_deposit_data_entries_witness :
  value (export_deposit_data_json Disk.batch "validator_keys" None)
    Disk.empty_world
  = Ok "validator_keys/deposit_data-1600000000.json"
  /\ (forall entry,
        map (fmap json_default)
          [Disk.datum_of Disk.credential8; Disk.datum_of Disk.credential9]
          !! 0 = Some entry ->
        entry !! "pubkey"
        = Some (JString (bytes_hex
                  (SkToPk (Credential.signing_sk Disk.credential8)))))
  /\ match files (state_after
                    (export_deposit_data_json Disk.batch "validator_keys" None)
                    Disk.empty_world)
            !! "validator_keys/deposit_data-1600000000.json" with
     | Some (DepositDataFile entries) => length entries = 2
     | _ => False
     end.
Proof.
  destruct (export_deposit_data_entries [Disk.credential8; Disk.credential9]
              [Disk.datum_of Disk.credential8; Disk.datum_of Disk.credential9]
              "validator_keys" None Disk.empty_world disk_data)
    as (Hrun & Hlen & Hentries & _).
  split; [|split].
  - unfold value. fold Disk.batch in Hrun. rewrite Hrun. reflexivity.
  - intros entry Hentry.
    exact (proj1 (Hentries 0 Disk.credential8 entry eq_refl Hentry)).
  - unfold state_after. fold Disk.batch in Hrun. rewrite Hrun.
    change (clock_reads Disk.empty_world) with 0.
    replace (path_join "validator_keys"
               (deposit_data_file_name (time_time 0)))
      with "validator_keys/deposit_data-1600000000.json"
      by (vm_compute; reflexivity).
    change (can_open_for_writing
              "validator_keys/deposit_data-1600000000.json") with true.
    cbn [snd files]. rewrite lookup_insert_eq. reflexivity.
Defined.
End DiskWitnesses.
